(** * CO2-emission_app.py: the column normaliser and the metric deriver

    A shallow embedding of the data pipeline of [CO2-emission_app.py]
    (lines 12-110: load, lower-casing of the column names, the seven rename
    rules, the numeric coercion, the six derivation steps), of the values the
    sidebar computes (lines 117-143: the country options, the bounds of the
    year slider, the options of the two select boxes), of the filter
    (lines 146-151) and of the master table (lines 187-200), with the
    properties of the program proved over it.

    The program is a script over a pandas [DataFrame].  The frame is modelled
    as a row index and an ordered association list of named columns; the
    pandas operations the script calls ([rename], [to_numeric],
    [sort_values], [groupby().cumsum()], [groupby().transform('sum')],
    [fillna], [replace], column assignment) are modelled by what they return
    on such a frame.

    Numbers.  A float64 cell is a [num]: a finite value, one of the two
    infinities, or NaN.  Finite values are exact rationals: rounding, overflow
    of a finite result and the sign of zero are outside the model; what the
    arithmetic does with zero divisors, infinities and NaN is as in IEEE 754.

    Failure.  A function of the model returns [None] where pandas raises.

    Left out: what the user does with the widgets (the selections are
    arguments of the filter); the charts (lines 162-181), which read the
    filtered frame and do not change it; the bounds of the year slider on a
    column [year] that does not hold floats; [num_cols] (line 44) and
    [existing_master_cols] (line 188), which nothing reads; the text of the
    cells of the CSV export (line 200). *)

From Stdlib Require Import List String Ascii Bool Arith ZArith QArith Lia.
From Stdlib Require Import Permutation Sorted OrdersEx RelationClasses.
Import ListNotations.

Local Open Scope string_scope.
Local Open Scope list_scope.

(** ** Numbers *)

Module Float.

Inductive num : Type :=
| Fin (q : Q)
| PInf
| NInf
| NaN.

(** [Lt]: negative, [Eq]: zero, [Gt]: positive. *)
Definition Qsign (q : Q) : comparison := (q ?= 0)%Q.

Definition inf_of (c : comparison) : num :=
  match c with
  | Gt => PInf
  | Lt => NInf
  | Eq => NaN
  end.

Definition is_nan (x : num) : bool :=
  match x with NaN => true | _ => false end.

Definition is_zero (x : num) : bool :=
  match x with Fin q => Qeq_bool q 0 | _ => false end.

Definition add (a b : num) : num :=
  match a, b with
  | NaN, _ | _, NaN => NaN
  | PInf, NInf | NInf, PInf => NaN
  | PInf, _ | _, PInf => PInf
  | NInf, _ | _, NInf => NInf
  | Fin x, Fin y => Fin (Qred (x + y))
  end.

Definition mul (a b : num) : num :=
  match a, b with
  | NaN, _ | _, NaN => NaN
  | Fin x, Fin y => Fin (Qred (x * y))
  | Fin x, PInf | PInf, Fin x => inf_of (Qsign x)
  | Fin x, NInf | NInf, Fin x => inf_of (CompOpp (Qsign x))
  | PInf, PInf | NInf, NInf => PInf
  | PInf, NInf | NInf, PInf => NInf
  end.

(** A finite nonzero value over zero is an infinity, zero over zero is NaN. *)
Definition div (a b : num) : num :=
  match a, b with
  | NaN, _ | _, NaN => NaN
  | Fin x, Fin y =>
      match Qsign y with
      | Eq => inf_of (Qsign x)
      | _ => Fin (Qred (x / y))
      end
  | Fin _, PInf | Fin _, NInf => Fin 0
  | PInf, Fin y => match Qsign y with Lt => NInf | _ => PInf end
  | NInf, Fin y => match Qsign y with Lt => PInf | _ => NInf end
  | _, _ => NaN
  end.

(** Equality of two values that are not NaN (NaN equals nothing). *)
Definition eqb (a b : num) : bool :=
  match a, b with
  | Fin x, Fin y => Qeq_bool x y
  | PInf, PInf | NInf, NInf => true
  | _, _ => false
  end.

(** The order of the values that are not NaN. *)
Definition leb (a b : num) : bool :=
  match a, b with
  | NaN, _ | _, NaN => false
  | NInf, _ => true
  | _, PInf => true
  | Fin x, Fin y => Qle_bool x y
  | _, _ => false
  end.

Definition of_Z (z : Z) : num := Fin (inject_Z z).

End Float.

Import Float.

(** ** Cells

    A cell of a column: a float, a string, or [pd.NA].  An empty CSV field
    is read as NaN, in a column of strings too. *)

Inductive cell : Type :=
| Num (x : num)
| Str (s : string)
| NA.

(** [pd.isna] *)
Definition missing (c : cell) : bool :=
  match c with
  | Num x => is_nan x
  | Str _ => false
  | NA => true
  end.

(** ** Strings: what the rename rules ask of a column name *)

(** [sub in s] *)
Fixpoint contains (sub s : string) : bool :=
  String.prefix sub s ||
  match s with
  | EmptyString => false
  | String _ r => contains sub r
  end.

(** [s.endswith(suf)] *)
Fixpoint endswith (s suf : string) : bool :=
  String.eqb s suf ||
  match s with
  | EmptyString => false
  | String _ r => endswith r suf
  end.

(** [c.lower()] on a name written in ASCII: the letters A to Z are
    lower-cased, every other character is kept.  The pipeline takes the
    function that lower-cases a name as a parameter; this one is used in the
    examples. *)
Definition lower_ascii (a : ascii) : ascii :=
  let n := nat_of_ascii a in
  if (65 <=? n)%nat && (n <=? 90)%nat then ascii_of_nat (n + 32) else a.

Fixpoint ascii_lower (s : string) : string :=
  match s with
  | EmptyString => EmptyString
  | String a r => String (lower_ascii a) (ascii_lower r)
  end.

(** ** The frame

    [index] holds the row labels, [columns] the columns in their order; a
    column is as long as the index.  [read_csv] gives a frame whose column
    names differ from one another. *)

Record DataFrame : Type := mkDF {
  index : list nat;
  columns : list (string * list cell)
}.

Definition names (t : DataFrame) : list string := map fst (columns t).

(** [c in df.columns] *)
Definition has (t : DataFrame) (c : string) : bool :=
  existsb (String.eqb c) (names t).

Fixpoint lookup (c : string) (cols : list (string * list cell))
  : option (list cell) :=
  match cols with
  | [] => None
  | (n, s) :: r => if String.eqb n c then Some s else lookup c r
  end.

(** [df[c]] *)
Definition get (t : DataFrame) (c : string) : option (list cell) :=
  lookup c (columns t).

Fixpoint assign (c : string) (s : list cell) (cols : list (string * list cell))
  : list (string * list cell) :=
  match cols with
  | [] => [(c, s)]
  | (n, v) :: r => if String.eqb n c then (c, s) :: r else (n, v) :: assign c s r
  end.

(** [df[c] = s]: an existing column is replaced where it stands, a new one
    is appended. *)
Definition set (t : DataFrame) (c : string) (s : list cell) : DataFrame :=
  mkDF (index t) (assign c s (columns t)).

Definition nrows (t : DataFrame) : nat := List.length (index t).

(** [df.empty]: no row or no column. *)
Definition empty (t : DataFrame) : bool :=
  (nrows t =? 0)%nat || (List.length (columns t) =? 0)%nat.

(** [pd.DataFrame()] *)
Definition empty_frame : DataFrame := mkDF [] [].

(** Rows taken in the order of [order], a list of positions. *)
Definition pick {A : Type} (d : A) (order : list nat) (xs : list A) : list A :=
  map (fun i => nth i xs d) order.

Definition take_rows (order : list nat) (t : DataFrame) : DataFrame :=
  mkDF (pick 0%nat order (index t))
       (map (fun col => (fst col, pick NA order (snd col))) (columns t)).

Definition col_ok (n : nat) (col : string * list cell) : bool :=
  (List.length (snd col) =? n)%nat.

Fixpoint distinct (l : list string) : bool :=
  match l with
  | [] => true
  | x :: r => negb (existsb (String.eqb x) r) && distinct r
  end.

(** A well-formed frame: distinct column names, columns as long as the index. *)
Definition wf (t : DataFrame) : bool :=
  distinct (names t) && forallb (col_ok (nrows t)) (columns t).

(** ** Sorting: [df.sort_values([k1, k2])]

    Missing keys go last; a sort on several keys is stable. *)

Definition str_leb (a b : string) : bool :=
  match String_as_OT.compare a b with
  | Gt => false
  | _ => true
  end.

(** The order of the cells of one column.  A column read from a CSV file
    holds floats, or strings and NaN; the order between a float and a string
    is never asked for in a sortable column (see [sortable]). *)
Definition cell_leb (a b : cell) : bool :=
  if missing b then true
  else if missing a then false
  else match a, b with
       | Num x, Num y => Float.leb x y
       | Str s, Str u => str_leb s u
       | Num _, Str _ => true
       | _, _ => false
       end.

Definition is_str (c : cell) : bool :=
  match c with Str _ => true | _ => false end.

Definition is_float (c : cell) : bool :=
  match c with Num _ => true | _ => false end.

(** pandas raises TypeError when it has to order a string and a number. *)
Definition sortable (s : list cell) : bool :=
  forallb (fun c => missing c || is_float c) s
  || forallb (fun c => missing c || is_str c) s.

Definition key : Type := (cell * cell)%type.

Definition key_leb (a b : key) : bool :=
  (cell_leb (fst a) (fst b) && negb (cell_leb (fst b) (fst a)))
  || (cell_leb (fst a) (fst b) && cell_leb (fst b) (fst a)
      && cell_leb (snd a) (snd b)).

Section InsertionSort.
Context {A : Type} (le : A -> A -> bool).

Fixpoint insert (x : A) (l : list A) : list A :=
  match l with
  | [] => [x]
  | y :: r => if le x y then x :: l else y :: insert x r
  end.

Fixpoint isort (l : list A) : list A :=
  match l with
  | [] => []
  | x :: r => insert x (isort r)
  end.
End InsertionSort.

(** The positions of the rows in sorted order. *)
Definition argsort (keys : list key) : list nat :=
  map snd (isort (fun a b : key * nat => key_leb (fst a) (fst b))
                 (combine keys (seq 0 (List.length keys)))).

Definition sort_values (t : DataFrame) (k1 k2 : list cell) : DataFrame :=
  take_rows (argsort (combine k1 k2)) t.

(** ** Grouping *)

Definition cell_eqb (a b : cell) : bool :=
  match a, b with
  | Num x, Num y => Float.eqb x y
  | Str s, Str u => String.eqb s u
  | _, _ => false
  end.

(** Two rows are in one group when their keys are equal; a row with a
    missing key is in no group ([dropna=True]). *)
Definition same_group (a b : cell) : bool :=
  negb (missing a) && negb (missing b) && cell_eqb a b.

(** The values of the rows of group [k]. *)
Definition group_vals (k : cell) (keys : list cell) (vals : list num)
  : list num :=
  map snd (filter (fun kv => same_group k (fst kv)) (combine keys vals)).

(** A sum that skips NaN; the sum of nothing is 0. *)
Definition nansum (vs : list num) : num :=
  fold_left Float.add (filter (fun v => negb (is_nan v)) vs) (Fin 0).

(** [df.groupby(keys)[vals].transform('sum')] *)
Definition transform_sum (keys : list cell) (vals : list num) : list num :=
  map (fun k => if missing k then NaN else nansum (group_vals k keys vals))
      keys.

(** The running total of group [k], the last one recorded first. *)
Fixpoint running (acc : list (cell * num)) (k : cell) : num :=
  match acc with
  | [] => Fin 0
  | (k', s) :: r => if same_group k k' then s else running r k
  end.

(** [df.groupby(keys)[vals].cumsum()]: one pass over the rows with a running
    total per group; a NaN value gives NaN and leaves the total as it is. *)
Fixpoint cumsum_go (acc : list (cell * num)) (keys : list cell)
  (vals : list num) : list num :=
  match keys, vals with
  | k :: ks, v :: vs =>
      if missing k || is_nan v then NaN :: cumsum_go acc ks vs
      else let s := Float.add (running acc k) v in
           s :: cumsum_go ((k, s) :: acc) ks vs
  | _, _ => []
  end.

Definition group_cumsum (keys : list cell) (vals : list num) : list num :=
  cumsum_go [] keys vals.

(** ** Column arithmetic *)

Fixpoint map2 {A B C : Type} (f : A -> B -> C) (xs : list A) (ys : list B)
  : list C :=
  match xs, ys with
  | x :: xs', y :: ys' => f x y :: map2 f xs' ys'
  | _, _ => []
  end.

Fixpoint all_nums (s : list cell) : option (list num) :=
  match s with
  | [] => Some []
  | Num x :: r =>
      match all_nums r with
      | Some xs => Some (x :: xs)
      | None => None
      end
  | _ :: _ => None
  end.

(** The values of a float64 column.  [None]: there is no such column, or it
    holds a cell that is not a float; [to_numeric] never returns one, and the
    arithmetic of pandas on such a column (cell by cell on Python objects,
    TypeError on a string) is not modelled. *)
Definition floats (t : DataFrame) (c : string) : option (list num) :=
  match get t c with
  | Some s => all_nums s
  | None => None
  end.

Definition nums (xs : list num) : list cell := map Num xs.

(** [.fillna(0)] *)
Definition fillna0 (xs : list num) : list num :=
  map (fun x => if is_nan x then Fin 0 else x) xs.

(** [s.replace({0: pd.NA})]: [None] stands for [pd.NA]. *)
Definition replace_zero_NA (xs : list num) : list (option num) :=
  map (fun x => if is_zero x then None else Some x) xs.

(** A float over a cell that is a float or [pd.NA]. *)
Definition div_NA (x : num) (y : option num) : cell :=
  match y with
  | Some y' => Num (Float.div x y')
  | None => NA
  end.

Definition hundred : num := Fin 100.

(** ** The schema normaliser (lines 23-79) *)

(** Line 25: [df.columns = [c.lower() for c in df.columns]], with [lower]
    for [str.lower]. *)
Definition lower_columns (lower : string -> string) (t : DataFrame)
  : DataFrame :=
  mkDF (index t) (map (fun col => (lower (fst col), snd col)) (columns t)).

Definition rename_name (old new n : string) : string :=
  if String.eqb n old then new else n.

(** [df.rename(columns={old: new})]: every column called [old] is renamed. *)
Definition rename (old new : string) (t : DataFrame) : DataFrame :=
  mkDF (index t)
       (map (fun col => (rename_name old new (fst col), snd col)) (columns t)).

(** One rename rule:
    [if target not in df.columns: for c in df.columns: if p(c): rename; break] *)
Definition rule (target : string) (p : string -> bool) (t : DataFrame)
  : DataFrame :=
  if has t target then t
  else match find p (names t) with
       | Some c => rename c target t
       | None => t
       end.

(** The same rule on the list of the column names. *)
Definition rule_names (target : string) (p : string -> bool)
  (ns : list string) : list string :=
  if existsb (String.eqb target) ns then ns
  else match find p ns with
       | Some c => map (rename_name c target) ns
       | None => ns
       end.

Definition p_country (c : string) : bool := contains "country" c.
Definition p_year (c : string) : bool := contains "year" c.
Definition p_co2 (c : string) : bool :=
  String.eqb "co2" c || contains "co2_" c || endswith c "co2".
Definition p_population (c : string) : bool :=
  contains "pop" c && negb (String.eqb c "co2_per_capita").
Definition p_gdp (c : string) : bool :=
  contains "gdp" c && negb (contains "per" c).
Definition p_gdp_per_capita (c : string) : bool :=
  contains "gdp_per_capita" c || contains "gdp_pc" c.
Definition p_co2_per_capita (c : string) : bool :=
  contains "co2_per_capita" c
  || (endswith c "per_capita" && contains "co2" c).

(** The seven rules in the order of the script (lines 31-74). *)
Definition rules : list (string * (string -> bool)) :=
  [ ("country", p_country); ("year", p_year); ("co2", p_co2);
    ("population", p_population); ("gdp", p_gdp);
    ("gdp_per_capita", p_gdp_per_capita);
    ("co2_per_capita", p_co2_per_capita) ].

Definition apply_rules (rs : list (string * (string -> bool)))
  (t : DataFrame) : DataFrame :=
  fold_left (fun d r => rule (fst r) (snd r) d) rs t.

Definition apply_rules_names (rs : list (string * (string -> bool)))
  (ns : list string) : list string :=
  fold_left (fun l r => rule_names (fst r) (snd r) l) rs ns.

Definition numeric_cols : list string :=
  [ "co2"; "population"; "gdp"; "gdp_per_capita"; "co2_per_capita" ].

Section Coercion.
(** What [pd.to_numeric] reads in a string; NaN where it reads no number
    ([errors='coerce']). *)
Variable parse : string -> num.

Definition to_numeric_cell (c : cell) : cell :=
  match c with
  | Num x => Num x
  | Str s => Num (parse s)
  | NA => Num NaN
  end.

(** Lines 77-79. *)
Definition coerce_col (t : DataFrame) (c : string) : DataFrame :=
  if has t c then
    match get t c with
    | Some s => set t c (map to_numeric_cell s)
    | None => t
    end
  else t.

Definition coerce (t : DataFrame) : DataFrame :=
  fold_left coerce_col numeric_cols t.

(** Lines 29-79 without the guard on [df.empty]. *)
Definition normalize (t : DataFrame) : DataFrame :=
  coerce (apply_rules rules t).
End Coercion.

(** ** The metric deriver (lines 81-110) *)

Definition bind {A B : Type} (o : option A) (f : A -> option B) : option B :=
  match o with
  | Some a => f a
  | None => None
  end.

Notation "x <- e ;; k" := (bind e (fun x => k))
  (at level 61, e at next level, right associativity).

(** Steps 1 and 5: [out = a / b], when [out] is not a column and [a], [b] are. *)
Definition step_ratio (out a b : string) (t : DataFrame) : option DataFrame :=
  if negb (has t out) && has t a && has t b then
    xs <- floats t a ;;
    ys <- floats t b ;;
    Some (set t out (nums (map2 Float.div xs ys)))
  else Some t.

Definition step1 : DataFrame -> option DataFrame :=
  step_ratio "co2_per_capita" "co2" "population".

(** Step 2: the sort and the cumulative sum per country. *)
Definition step2 (t : DataFrame) : option DataFrame :=
  if negb (has t "cumulative_co2") && has t "co2" && has t "country"
     && has t "year" then
    cs <- get t "country" ;;
    ys <- get t "year" ;;
    if sortable cs && sortable ys then
      let t1 := sort_values t cs ys in
      ks <- get t1 "country" ;;
      xs <- floats t1 "co2" ;;
      Some (set t1 "cumulative_co2" (nums (group_cumsum ks xs)))
    else None
  else Some t.

(** [(a / b * 100).fillna(0)] *)
Definition percent (a b : list num) : list num :=
  fillna0 (map (fun q => Float.mul q hundred) (map2 Float.div a b)).

(** Steps 3 and 4: the total per year and the share of it.  There is no test
    of [total] or [pct] being columns already. *)
Definition step_pct (src total pct : string) (t : DataFrame)
  : option DataFrame :=
  if has t src && has t "year" then
    ys <- get t "year" ;;
    xs <- floats t src ;;
    let t1 := set t total (nums (transform_sum ys xs)) in
    a <- floats t1 src ;;
    b <- floats t1 total ;;
    Some (set t1 pct (nums (percent a b)))
  else Some t.

Definition step3 : DataFrame -> option DataFrame :=
  step_pct "co2" "global_total_co2" "co2_pct".

Definition step4 : DataFrame -> option DataFrame :=
  step_pct "gdp" "global_total_gdp" "gdp_pct".

Definition step5 : DataFrame -> option DataFrame :=
  step_ratio "gdp_per_capita" "gdp" "population".

(** Step 6: [co2 / gdp.replace({0: pd.NA})] *)
Definition step6 (t : DataFrame) : option DataFrame :=
  if negb (has t "co2_per_gdp") && has t "co2" && has t "gdp" then
    xs <- floats t "co2" ;;
    ys <- floats t "gdp" ;;
    Some (set t "co2_per_gdp" (map2 div_NA xs (replace_zero_NA ys)))
  else Some t.

Definition derive (t : DataFrame) : option DataFrame :=
  t1 <- step1 t ;;
  t2 <- step2 t1 ;;
  t3 <- step3 t2 ;;
  t4 <- step4 t3 ;;
  t5 <- step5 t4 ;;
  step6 t5.

Definition is_some {A : Type} (o : option A) : bool :=
  match o with Some _ => true | None => false end.

Definition column_sortable (t : DataFrame) (c : string) : bool :=
  match get t c with
  | Some s => sortable s
  | None => true
  end.

(** A normalised table: a well-formed frame in which the five numeric columns,
    where present, hold floats (what [to_numeric] returns) and the columns
    [country] and [year], where present, can be sorted. *)
Definition normalized (t : DataFrame) : bool :=
  wf t
  && forallb (fun c => negb (has t c) || is_some (floats t c)) numeric_cols
  && column_sortable t "country" && column_sortable t "year".

(** ** The whole pipeline (lines 12-110) *)

(** Lines 13-22: the frame read from the file, or [pd.DataFrame()] when the
    file is not there or cannot be read. *)
Definition load (read : option DataFrame) : DataFrame :=
  match read with
  | Some d => d
  | None => empty_frame
  end.

Definition pipeline (lower : string -> string) (parse : string -> num)
  (t : DataFrame) : option DataFrame :=
  let t1 := if negb (empty t) then lower_columns lower t else t in
  if negb (empty t1) then derive (normalize parse t1) else Some t1.

(** ** The master table (lines 187-200) *)







(** [df[mask]]: the rows whose mask is true (lines 149 and 151). *)
Fixpoint keep {A : Type} (mask : list bool) (xs : list A) : list A :=
  match mask, xs with
  | b :: m, x :: r => if b then x :: keep m r else keep m r
  | _, _ => []
  end.

Definition select_rows (mask : list bool) (t : DataFrame) : DataFrame :=
  mkDF (keep mask (index t))
       (map (fun col => (fst col, keep mask (snd col))) (columns t)).

(** ** The sidebar (lines 117-143) *)


(** Two cells hold one value: equal, or both missing. *)
Definition same_value (a b : cell) : bool :=
  cell_eqb a b || (missing a && missing b).





(** [Series.min()] and [Series.max()]: NaN is skipped, and NaN is returned
    when nothing is left. *)
Definition fmin (a b : num) : num :=
  if is_nan a then b else if is_nan b then a
  else if Float.leb a b then a else b.

Definition fmax (a b : num) : num :=
  if is_nan a then b else if is_nan b then a
  else if Float.leb a b then b else a.

Definition nanmin (xs : list num) : num := fold_right fmin NaN xs.
Definition nanmax (xs : list num) : num := fold_right fmax NaN xs.

(** [int(x)]: the integer towards zero; [None] is the ValueError on NaN and
    the OverflowError on an infinity. *)
Definition to_int (x : num) : option Z :=
  match x with
  | Fin q => Some (Z.quot (Qnum q) (Zpos (Qden q)))
  | _ => None
  end.

(** Lines 129-130 on the values of a float column [year]. *)
Definition year_bounds (ys : list num) : option (Z * Z) :=
  lo <- to_int (nanmin ys) ;;
  hi <- to_int (nanmax ys) ;;
  Some (lo, hi).

Definition co2_options : list string :=
  [ "co2_pct"; "co2_per_capita"; "cumulative_co2" ].

Definition gdp_options : list string :=
  [ "gdp_pct"; "gdp_per_capita"; "co2_per_gdp" ].

Definition none_available : string := "(none available)".

(** Lines 138 and 142: [[c for c in options if c in df.columns]] *)
Definition available (opts : list string) (t : DataFrame) : list string :=
  filter (has t) opts.

(** Lines 139 and 143: the options of the select box. *)
Definition offered (opts : list string) (t : DataFrame) : list string :=
  match available opts t with
  | [] => [none_available]
  | l => l
  end.

(** Lines 159 and 172: a chart is drawn. *)
Definition chart_drawn (filtered : DataFrame) (selected : string) : bool :=
  negb (empty filtered || String.eqb selected none_available).

(** ** The filter (lines 146-151) *)

(** [Series.isin(values)] *)
Definition isin (sel : list cell) (c : cell) : bool :=
  existsb (same_value c) sel.

(** [(year >= lo) & (year <= hi)]: false on NaN. *)
Definition in_range (lo hi : Z) (y : num) : bool :=
  Float.leb (of_Z lo) y && Float.leb y (of_Z hi).

(** Line 149.  [None] is the KeyError of [filtered['country']]. *)
Definition filter_countries (sel : list cell) (t : DataFrame)
  : option DataFrame :=
  match sel with
  | [] => Some t
  | _ :: _ =>
      s <- get t "country" ;;
      Some (select_rows (map (isin sel) s) t)
  end.

(** Lines 150-151.  [None]: the column [year] holds a cell that is not a
    float; pandas raises TypeError when it compares a string and an
    integer. *)
Definition filter_years (yrs : option (Z * Z)) (t : DataFrame)
  : option DataFrame :=
  match yrs with
  | Some (lo, hi) =>
      if has t "year" then
        ys <- floats t "year" ;;
        Some (select_rows (map (in_range lo hi) ys) t)
      else Some t
  | None => Some t
  end.

(** Lines 146-151: [sel] is [selected_countries], [yrs] is [selected_years]. *)
Definition filter_view (sel : list cell) (yrs : option (Z * Z))
  (t : DataFrame) : option DataFrame :=
  if negb (empty t) then
    f <- filter_countries sel t ;;
    filter_years yrs f
  else Some t.

(** The two tests of lines 149 and 151 on one row: an empty selection of
    countries keeps every row. *)
Definition selected (sel : list cell) (c : cell) : bool :=
  match sel with
  | [] => true
  | _ :: _ => isin sel c
  end.

Definition row_kept (sel : list cell) (lo hi : Z) (c : cell) (y : num) : bool :=
  selected sel c && in_range lo hi y.

(** ** Notions used in the statements and in the proofs *)

(** *** Sorted rows *)

(** [a] may stand before [b] in a sorted list: it is not larger, and where
    the two are equivalent it came first ([pos] is the place it had). *)
Definition before {A : Type} (le : A -> A -> bool) (pos : A -> nat)
  (a b : A) : Prop :=
  le a b = true /\ (le b a = true -> (pos a < pos b)%nat).

(** The sort key of row [i]. *)
Definition key_at (keys : list key) (i : nat) : key := nth i keys (NA, NA).

(** Row [i] may stand before row [j]: its key is not larger, and where the
    two keys are equivalent, [i] was the earlier row. *)
Definition row_before (keys : list key) (i j : nat) : Prop :=
  key_leb (key_at keys i) (key_at keys j) = true /\
  (key_leb (key_at keys j) (key_at keys i) = true -> (i < j)%nat).

(** *** The tests of the six steps *)

Definition guard_ratio (out a b : string) (t : DataFrame) : bool :=
  negb (has t out) && has t a && has t b.

Definition guard2 (t : DataFrame) : bool :=
  negb (has t "cumulative_co2") && has t "co2" && has t "country"
  && has t "year".

Definition guard_pct (src : string) (t : DataFrame) : bool :=
  has t src && has t "year".

Definition guard6 (t : DataFrame) : bool :=
  negb (has t "co2_per_gdp") && has t "co2" && has t "gdp".

(** The row order of the output: that of the sort of step 2 when it runs,
    [None] when the rows stay where they are. *)
Definition row_order (t : DataFrame) : option (list nat) :=
  if guard2 t then
    match get t "country", get t "year" with
    | Some cs, Some ys => Some (argsort (combine cs ys))
    | _, _ => None
    end
  else None.

(** The order in which the output holds the rows of the input. *)
Definition output_order (t : DataFrame) : list nat :=
  match row_order t with
  | Some o => o
  | None => seq 0 (nrows t)
  end.

(** *** The frame of a step *)

Definition mem (c : string) (l : list string) : bool :=
  existsb (String.eqb c) l.

Definition reorder {A : Type} (d : A) (oo : option (list nat)) (xs : list A)
  : list A :=
  match oo with
  | Some o => pick d o xs
  | None => xs
  end.

(** [Rel oo D U t t']: [t'] is [t] with its rows in the order [oo] ([None]:
    the order they had) and with columns assigned; every assigned column has
    its name in [D], and a column that [t] had already is assigned only if
    its name is in [U]. *)
Record Rel (oo : option (list nat)) (D U : list string) (t t' : DataFrame)
  : Prop := mkRel {
  rel_index : index t' = reorder 0%nat oo (index t);
  rel_out : forall c, mem c D = false ->
            get t' c = option_map (reorder NA oo) (get t c);
  rel_in : forall c, has t c = true -> mem c U = false ->
           get t' c = option_map (reorder NA oo) (get t c);
  rel_mono : forall c, has t c = true -> has t' c = true
}.

(** The columns the six steps assign, in the order of the steps. *)
Definition derived_names : list string :=
  [ "co2_per_capita"; "cumulative_co2"; "global_total_co2"; "co2_pct";
    "global_total_gdp"; "gdp_pct"; "gdp_per_capita"; "co2_per_gdp" ].

(** The columns that steps 3 and 4 assign without a test. *)
Definition unguarded_names : list string :=
  [ "global_total_co2"; "co2_pct"; "global_total_gdp"; "gdp_pct" ].

(** The columns assigned from step [i] to step 6 ... *)
Definition D6 : list string := ["co2_per_gdp"].
Definition D56 : list string := "gdp_per_capita" :: D6.
Definition D46 : list string := "global_total_gdp" :: "gdp_pct" :: D56.
Definition D36 : list string := "global_total_co2" :: "co2_pct" :: D46.

(** ... and from step 1 to step [i]. *)
Definition D1 : list string := ["co2_per_capita"].
Definition D12 : list string := D1 ++ ["cumulative_co2"].
Definition D13 : list string := D12 ++ ["global_total_co2"; "co2_pct"].
Definition D14 : list string := D13 ++ ["global_total_gdp"; "gdp_pct"].
Definition D15 : list string := D14 ++ ["gdp_per_capita"].

(** *** What the steps need of a table *)

Definition lengths_ok (t : DataFrame) : bool :=
  forallb (col_ok (nrows t)) (columns t).

(** What [normalized] gives and every step keeps: columns as long as the
    index, floats in the numeric columns, sortable [country] and [year]. *)
Record Inv (t : DataFrame) : Prop := mkInv {
  inv_len : lengths_ok t = true;
  inv_num : forall c, mem c numeric_cols = true -> has t c = true ->
            exists xs, floats t c = Some xs;
  inv_country : column_sortable t "country" = true;
  inv_year : column_sortable t "year" = true
}.

(** A frame as [read_csv] gives it: every column holds floats, or strings
    and NaN. *)
Definition homogeneous (t : DataFrame) : bool :=
  forallb (fun col => sortable (snd col)) (columns t).

(** The float that [pd.to_numeric] makes of a cell. *)
Definition cell_value (parse : string -> num) (c : cell) : num :=
  match c with
  | Num x => x
  | Str s => parse s
  | NA => NaN
  end.

(** Names added at the end of a list of names. *)
Definition extends (ns ns' added : list string) : Prop :=
  ns' = ns ++ added /\ incl added derived_names /\
  (distinct ns = true -> distinct ns' = true).

Definition is_finite (x : num) : bool :=
  match x with Fin _ => true | _ => false end.


(** *** Sums and shares, row by row *)

(** The sum, NaN skipped, of the values of the rows of group [k]. *)
Definition group_total (k : cell) (keys : list cell) (vals : list num) : num :=
  nansum (group_vals k keys vals).

(** [(x / g * 100)] with NaN replaced by 0: one cell of [percent]. *)
Definition share (x g : num) : num :=
  let p := Float.mul (Float.div x g) hundred in
  if is_nan p then Fin 0 else p.

(** *** The rename rules, one after the other *)

(** No rule of [rs] renames a column called [n]: a rule has [n] for its
    target, and does not run while [n] is a column, or does not match [n]. *)
Definition keeps_name (rs : list (string * (string -> bool))) (n : string)
  : bool :=
  forallb (fun r => String.eqb (fst r) n || negb (snd r n)) rs.

(** No rule matches the target of an earlier rule. *)
Fixpoint no_recapture (rs : list (string * (string -> bool))) : bool :=
  match rs with
  | [] => true
  | r :: rest =>
      forallb (fun r' => negb (snd r' (fst r))) rest && no_recapture rest
  end.

(** The column names after the first [k] rules. *)
Definition stage (rs : list (string * (string -> bool))) (k : nat)
  (ns : list string) : list string :=
  apply_rules_names (firstn k rs) ns.

Definition no_rule : string * (string -> bool) := ("", fun _ => false).

(** *** The export *)


(** ** Example tables *)

Definition z (n : Z) : cell := Num (of_Z n).

(** Two countries over two years, with a zero GDP in one country. *)
Definition four_rows : DataFrame :=
  mkDF [0; 1; 2; 3]%nat
       [ ("country", [Str "B"; Str "A"; Str "A"; Str "B"]);
         ("year", [z 2001; z 2001; z 2000; z 2000]);
         ("co2", [z 30; z 5; z 10; z 7]);
         ("gdp", [z 0; z 2; z 4; z 0]) ].

(** One row with [gdp = 0] and [co2 = 100]. *)
Definition zero_gdp : DataFrame :=
  mkDF [0]%nat [ ("co2", [z 100]); ("gdp", [z 0]) ].

(** A header-only CSV file: columns and no row. *)
Definition header_only : DataFrame :=
  mkDF [] [ ("Country", []); ("YEAR", []); ("Total_CO2", []) ].

(** A table that comes with a column [co2_pct]. *)
Definition with_pct : DataFrame :=
  mkDF [0]%nat
       [ ("year", [z 2000]); ("co2", [z 10]); ("co2_pct", [z 999]) ].

(** A table that comes with a column [global_total_co2]. *)
Definition with_total : DataFrame :=
  mkDF [0; 1]%nat
       [ ("year", [z 2000; z 2000]); ("co2", [z 10; z 30]);
         ("global_total_co2", [z 1; z 1]) ].

(** Two rows of one year whose [co2] values cancel. *)
Definition cancel : DataFrame :=
  mkDF [0; 1]%nat
       [ ("year", [z 2000; z 2000]); ("co2", [z 5; z (-5)]) ].

(** Countries A and B in one year. *)
Definition two_countries : DataFrame :=
  mkDF [0; 1]%nat
       [ ("country", [Str "A"; Str "B"]); ("year", [z 2000; z 2000]);
         ("co2", [z 10; z 30]) ].

(** One country over two years, and the same rows given in the other
    order. *)
Definition country_A : DataFrame :=
  mkDF [0; 1]%nat
       [ ("country", [Str "A"; Str "A"]); ("year", [z 2000; z 2001]);
         ("co2", [z 10; z 5]) ].

Definition country_A_reversed : DataFrame :=
  mkDF [0; 1]%nat
       [ ("country", [Str "A"; Str "A"]); ("year", [z 2001; z 2000]);
         ("co2", [z 5; z 10]) ].

(** A derived table of one row. *)
Definition one_row : DataFrame :=
  mkDF [0]%nat
       [ ("country", [Str "A"]); ("year", [z 2000]); ("co2_pct", [z 100]) ].

(** A table with [co2] and [co2_per_capita], and one with the latter only. *)
Definition per_capita_only : DataFrame :=
  mkDF [0]%nat
       [ ("co2", [z 10]); ("co2_per_capita", [z 2]); ("emissions", [z 7]) ].

Definition per_capita_alone : DataFrame :=
  mkDF [0]%nat
       [ ("year", [z 2000]); ("co2_per_capita", [z 2]);
         ("co2_total", [z 10]) ].


(** A table whose column names need the rules. *)
Definition raw_table : DataFrame :=
  mkDF [0]%nat
       [ ("Country Name", [Str "A"]); ("YEAR", [z 2000]);
         ("Total_CO2", [Str "10"]); ("co2_emissions", [z 3]) ].

(** The same table once its column names are lower-cased. *)
Definition raw_lowered : DataFrame := lower_columns ascii_lower raw_table.

(** Two per-capita columns and no column [co2]. *)
Definition per_capita_twice : DataFrame :=
  mkDF [0]%nat
       [ ("co2_per_capita", [z 2]); ("x_co2_per_capita", [z 3]) ].

(** Two countries in two years, the later rows first, with a population of
    zero in one row. *)
Definition with_population : DataFrame :=
  mkDF [0; 1; 2]%nat
       [ ("country", [Str "B"; Str "A"; Str "A"]);
         ("year", [z 2001; z 2001; z 2000]);
         ("co2", [z 30; z 5; z 10]);
         ("gdp", [z 8; z 2; z 4]);
         ("population", [z 0; z 5; z 2]) ].

(** * Properties *)

Ltac incl_tac := intros ? ?; simpl in *; tauto.

(** ** Columns: lookup and assignment *)

Lemma has_lookup (cols : list (string * list cell)) (c : string) :
  existsb (String.eqb c) (map fst cols) = is_some (lookup c cols).
Proof.
  induction cols as [|[n s] r IH]; simpl; [reflexivity|].
  rewrite (String.eqb_sym c n). destruct (String.eqb n c); simpl; auto.
Qed.

Lemma has_get (t : DataFrame) (c : string) : has t c = is_some (get t c).
Proof. apply has_lookup. Qed.

Lemma lookup_assign (c d : string) (s : list cell) cols :
  lookup d (assign c s cols) = if String.eqb c d then Some s else lookup d cols.
Proof.
  induction cols as [|[n v] r IH]; simpl.
  - destruct (String.eqb c d); reflexivity.
  - destruct (String.eqb_spec n c) as [->|Hn]; simpl.
    + destruct (String.eqb c d); reflexivity.
    + rewrite IH. destruct (String.eqb_spec n d) as [->|Hd]; [|reflexivity].
      destruct (String.eqb_spec c d); congruence.
Qed.

Lemma get_set (t : DataFrame) (c d : string) (s : list cell) :
  get (set t c s) d = if String.eqb c d then Some s else get t d.
Proof. apply lookup_assign. Qed.

Lemma has_set (t : DataFrame) (c d : string) (s : list cell) :
  has (set t c s) d = String.eqb c d || has t d.
Proof.
  rewrite !has_get, get_set. destruct (String.eqb c d); reflexivity.
Qed.

Lemma assign_same (c : string) (s : list cell) cols :
  lookup c cols = Some s -> assign c s cols = cols.
Proof.
  induction cols as [|[n v] r IH]; simpl; [discriminate|].
  destruct (String.eqb_spec n c) as [->|Hn].
  - intros [= ->]. reflexivity.
  - intros H. rewrite (IH H). reflexivity.
Qed.

(** Assigning to a column the values it holds changes nothing. *)
Lemma set_same (t : DataFrame) (c : string) (s : list cell) :
  get t c = Some s -> set t c s = t.
Proof.
  intros H. destruct t as [ix cols]. unfold set; simpl.
  f_equal. apply assign_same, H.
Qed.

Lemma names_assign (c : string) (s : list cell) cols :
  map fst (assign c s cols) =
  if existsb (String.eqb c) (map fst cols) then map fst cols
  else map fst cols ++ [c].
Proof.
  induction cols as [|[n v] r IH]; simpl; [reflexivity|].
  rewrite (String.eqb_sym c n).
  destruct (String.eqb_spec n c) as [->|Hn]; simpl; [reflexivity|].
  rewrite IH. destruct (existsb (String.eqb c) (map fst r)); reflexivity.
Qed.

Lemma names_set (t : DataFrame) (c : string) (s : list cell) :
  names (set t c s) = if has t c then names t else names t ++ [c].
Proof. apply names_assign. Qed.

(** ** Rows taken in another order *)

Lemma lookup_map_snd (f : list cell -> list cell) (c : string) cols :
  lookup c (map (fun col => (fst col, f (snd col))) cols) =
  option_map f (lookup c cols).
Proof.
  induction cols as [|[n v] r IH]; simpl; [reflexivity|].
  destruct (String.eqb n c); simpl; auto.
Qed.

Lemma get_take_rows (o : list nat) (t : DataFrame) (c : string) :
  get (take_rows o t) c = option_map (pick NA o) (get t c).
Proof. apply lookup_map_snd. Qed.

Lemma names_map_snd (f : list cell -> list cell) cols :
  map fst (map (fun col : string * list cell => (fst col, f (snd col))) cols)
  = map fst cols.
Proof. rewrite map_map. reflexivity. Qed.

Lemma names_take_rows (o : list nat) (t : DataFrame) :
  names (take_rows o t) = names t.
Proof. apply names_map_snd. Qed.

Lemma has_take_rows (o : list nat) (t : DataFrame) (c : string) :
  has (take_rows o t) c = has t c.
Proof. unfold has. rewrite names_take_rows. reflexivity. Qed.

Lemma pick_seq {A : Type} (d : A) (xs : list A) :
  pick d (seq 0 (List.length xs)) xs = xs.
Proof.
  unfold pick. apply nth_ext with (d := d) (d' := d).
  - rewrite length_map, length_seq. reflexivity.
  - intros i Hi. rewrite length_map, length_seq in Hi.
    rewrite (nth_indep _ d (nth (List.length xs) xs d))
      by (rewrite length_map, length_seq; exact Hi).
    rewrite (map_nth (fun i => nth i xs d)), seq_nth by exact Hi.
    reflexivity.
Qed.

Lemma pick_length {A : Type} (d : A) (o : list nat) (xs : list A) :
  List.length (pick d o xs) = List.length o.
Proof. apply length_map. Qed.

Lemma pick_perm {A : Type} (d : A) (o : list nat) (xs : list A) :
  Permutation o (seq 0 (List.length xs)) -> Permutation (pick d o xs) xs.
Proof.
  intros H. rewrite <- (pick_seq d xs) at 2.
  unfold pick. apply Permutation_map, H.
Qed.

Lemma pick_combine {A B : Type} (da : A) (db : B) (o : list nat)
  (xs : list A) (ys : list B) :
  List.length xs = List.length ys ->
  combine (pick da o xs) (pick db o ys) = pick (da, db) o (combine xs ys).
Proof.
  intros Hl. unfold pick. induction o as [|i o IH]; simpl; [reflexivity|].
  rewrite IH. f_equal. symmetry. apply combine_nth; assumption.
Qed.

(** ** The order of the sort keys *)

Lemma str_leb_total (a b : string) : str_leb a b = true \/ str_leb b a = true.
Proof.
  unfold str_leb.
  destruct (String_as_OT.compare_spec a b) as [E|L|G]; auto.
  right. destruct (String_as_OT.compare_spec b a) as [E'|L'|G']; auto.
  exfalso. apply (StrictOrder_Irreflexive a).
  exact (StrictOrder_Transitive _ _ _ G' G).
Qed.

Lemma str_leb_iff (a b : string) :
  str_leb a b = true <-> a = b \/ String_as_OT.lt a b.
Proof.
  unfold str_leb.
  destruct (String_as_OT.compare_spec a b) as [E|L|G]; split; auto.
  - discriminate.
  - intros [E|L]; exfalso.
    + subst. exact (StrictOrder_Irreflexive b G).
    + exact (StrictOrder_Irreflexive a (StrictOrder_Transitive _ _ _ L G)).
Qed.

Lemma str_leb_trans (a b c : string) :
  str_leb a b = true -> str_leb b c = true -> str_leb a c = true.
Proof.
  rewrite !str_leb_iff. intros [E|L] [E'|L']; subst; auto.
  right. exact (StrictOrder_Transitive _ _ _ L L').
Qed.

Lemma float_leb_total (a b : num) :
  is_nan a = false -> is_nan b = false ->
  Float.leb a b = true \/ Float.leb b a = true.
Proof.
  destruct a as [x| | |], b as [y| | |]; simpl; try discriminate; auto.
  intros _ _. rewrite !Qle_bool_iff.
  destruct (Qlt_le_dec x y) as [H|H]; [left; apply Qlt_le_weak, H|right; exact H].
Qed.

Lemma float_leb_trans (a b c : num) :
  Float.leb a b = true -> Float.leb b c = true -> Float.leb a c = true.
Proof.
  destruct a as [x| | |], b as [y| | |], c as [z| | |]; simpl;
    try discriminate; auto.
  rewrite !Qle_bool_iff. apply Qle_trans.
Qed.

Lemma cell_leb_total (a b : cell) : cell_leb a b = true \/ cell_leb b a = true.
Proof.
  unfold cell_leb.
  destruct (missing b) eqn:Mb; [auto|].
  destruct (missing a) eqn:Ma; [auto|].
  destruct a as [x|s|], b as [y|u|]; simpl in *; try discriminate; auto.
  - apply float_leb_total; assumption.
  - apply str_leb_total.
Qed.

Lemma cell_leb_trans (a b c : cell) :
  cell_leb a b = true -> cell_leb b c = true -> cell_leb a c = true.
Proof.
  unfold cell_leb.
  destruct (missing c) eqn:Mc; [auto|].
  destruct (missing b) eqn:Mb; [discriminate|].
  destruct (missing a) eqn:Ma; [discriminate|].
  destruct a as [x|s|], b as [y|u|], c as [z|v|]; simpl in *;
    try discriminate; auto.
  - apply float_leb_trans.
  - apply str_leb_trans.
Qed.

Lemma key_leb_total (a b : key) : key_leb a b = true \/ key_leb b a = true.
Proof.
  unfold key_leb.
  destruct (cell_leb_total (fst a) (fst b)) as [H|H];
    destruct (cell_leb_total (snd a) (snd b)) as [H'|H'];
    rewrite ?H, ?H';
    destruct (cell_leb (fst a) (fst b)), (cell_leb (fst b) (fst a));
    simpl; auto; discriminate.
Qed.

Lemma key_leb_trans (a b c : key) :
  key_leb a b = true -> key_leb b c = true -> key_leb a c = true.
Proof.
  unfold key_leb.
  pose proof (cell_leb_trans (fst a) (fst b) (fst c)) as T1.
  pose proof (cell_leb_trans (fst c) (fst a) (fst b)) as T2.
  pose proof (cell_leb_trans (fst b) (fst c) (fst a)) as T3.
  pose proof (cell_leb_trans (snd a) (snd b) (snd c)) as T4.
  destruct (cell_leb (fst a) (fst b)), (cell_leb (fst b) (fst a)),
    (cell_leb (fst b) (fst c)), (cell_leb (fst c) (fst b)),
    (cell_leb (fst a) (fst c)), (cell_leb (fst c) (fst a)),
    (cell_leb (snd a) (snd b)), (cell_leb (snd b) (snd c));
    simpl; intros; auto; try discriminate;
    try (specialize (T1 eq_refl eq_refl); discriminate);
    try (specialize (T2 eq_refl eq_refl); discriminate);
    try (specialize (T3 eq_refl eq_refl); discriminate).
Qed.

(** ** Insertion sort: a permutation, in order, ties in the order they came *)

Section SortFacts.
Context {A : Type} (le : A -> A -> bool) (pos : A -> nat).
Hypothesis le_total : forall a b, le a b = true \/ le b a = true.
Hypothesis le_trans :
  forall a b c, le a b = true -> le b c = true -> le a c = true.

Lemma insert_perm (x : A) (l : list A) : Permutation (insert le x l) (x :: l).
Proof.
  induction l as [|y r IH]; simpl; [reflexivity|].
  destruct (le x y); [reflexivity|].
  rewrite IH. apply perm_swap.
Qed.

Lemma isort_perm (l : list A) : Permutation (isort le l) l.
Proof.
  induction l as [|x r IH]; simpl; [reflexivity|].
  rewrite insert_perm. constructor. exact IH.
Qed.

Lemma insert_sorted (x : A) (l : list A) :
  StronglySorted (before le pos) l ->
  Forall (fun y => (pos x < pos y)%nat) l ->
  StronglySorted (before le pos) (insert le x l).
Proof.
  induction l as [|y r IH]; intros Hs Hp; simpl.
  - repeat constructor.
  - inversion Hs as [|? ? Hr Hy]; subst.
    inversion Hp as [|? ? Hxy Hxr]; subst.
    destruct (le x y) eqn:E.
    + constructor; [exact Hs|].
      constructor; [split; auto|].
      rewrite Forall_forall in *. intros z Hz. split.
      * apply le_trans with y; [exact E|]. apply (Hy z Hz).
      * intros _. apply Hxr, Hz.
    + constructor; [apply IH; assumption|].
      apply (Permutation_Forall (Permutation_sym (insert_perm x r))).
      constructor; [|exact Hy].
      split.
      * destruct (le_total x y) as [H|H]; congruence.
      * intros H. congruence.
Qed.

Lemma isort_sorted (l : list A) :
  StronglySorted (fun a b => (pos a < pos b)%nat) l ->
  StronglySorted (before le pos) (isort le l).
Proof.
  induction l as [|x r IH]; intros Hs; simpl; [constructor|].
  inversion Hs as [|? ? Hr Hx]; subst.
  apply insert_sorted; [apply IH, Hr|].
  apply (Permutation_Forall (Permutation_sym (isort_perm r))). exact Hx.
Qed.
End SortFacts.

(** ** [argsort]: the order of the rows after [sort_values] *)

Lemma map_snd_combine_seq {K : Type} (ks : list K) (s : nat) :
  map snd (combine ks (seq s (List.length ks))) = seq s (List.length ks).
Proof.
  revert s. induction ks as [|k r IH]; intros s; simpl; [reflexivity|].
  rewrite IH. reflexivity.
Qed.

Lemma in_combine_seq {K : Type} (d : K) (ks : list K) (s : nat) (k : K) (i : nat) :
  In (k, i) (combine ks (seq s (List.length ks))) ->
  (s <= i)%nat /\ (i < s + List.length ks)%nat /\ nth (i - s) ks d = k.
Proof.
  revert s. induction ks as [|k0 r IH]; intros s; simpl; [tauto|].
  intros [[= <- <-]|H].
  - rewrite Nat.sub_diag. repeat split; lia.
  - destruct (IH _ H) as (H1 & H2 & H3).
    repeat split; try lia.
    replace (i - s)%nat with (S (i - S s)) by lia. exact H3.
Qed.

Lemma combine_seq_increasing {K : Type} (ks : list K) (s : nat) :
  StronglySorted (fun a b : K * nat => (snd a < snd b)%nat)
                 (combine ks (seq s (List.length ks))).
Proof.
  revert s. induction ks as [|k r IH]; intros s; simpl; constructor.
  - apply IH.
  - rewrite Forall_forall. intros [k' i] H.
    apply (in_combine_seq k) in H. simpl. lia.
Qed.

Lemma StronglySorted_map {X Y : Type} (R : X -> X -> Prop) (R' : Y -> Y -> Prop)
  (P : X -> Prop) (f : X -> Y) (l : list X) :
  (forall a b, P a -> P b -> R a b -> R' (f a) (f b)) ->
  Forall P l -> StronglySorted R l -> StronglySorted R' (map f l).
Proof.
  intros HR HP HS. induction HS as [|a l HS IH Ha]; simpl; constructor.
  - apply IH. inversion HP; assumption.
  - inversion HP as [|? ? Pa Pl]; subst.
    rewrite Forall_forall in *. intros y Hy.
    apply in_map_iff in Hy as (b & <- & Hb). auto.
Qed.

Lemma argsort_perm (keys : list key) :
  Permutation (argsort keys) (seq 0 (List.length keys)).
Proof.
  unfold argsort.
  rewrite <- (map_snd_combine_seq keys 0) at 2.
  apply Permutation_map, isort_perm.
Qed.

Lemma argsort_lt (keys : list key) (i : nat) :
  In i (argsort keys) -> (i < List.length keys)%nat.
Proof.
  intros H. apply (Permutation_in _ (argsort_perm keys)) in H.
  apply in_seq in H. lia.
Qed.

Lemma argsort_length (keys : list key) :
  List.length (argsort keys) = List.length keys.
Proof.
  rewrite (Permutation_length (argsort_perm keys)). apply length_seq.
Qed.

(** The sort is in ascending order of the keys and stable. *)
Lemma argsort_sorted (keys : list key) :
  StronglySorted (row_before keys) (argsort keys).
Proof.
  unfold argsort.
  set (le := fun a b : key * nat => key_leb (fst a) (fst b)).
  apply StronglySorted_map
    with (R := before le snd)
         (P := fun p : key * nat => key_at keys (snd p) = fst p).
  - intros a b Ha Hb [H1 H2]. unfold row_before. rewrite Ha, Hb. split; auto.
  - apply (Permutation_Forall (Permutation_sym (isort_perm le _))).
    rewrite Forall_forall. intros [k i] H.
    apply (in_combine_seq (NA, NA)) in H. simpl. unfold key_at.
    destruct H as (_ & _ & H). rewrite Nat.sub_0_r in H. exact H.
  - apply isort_sorted.
    + intros a b. apply key_leb_total.
    + intros a b c. apply key_leb_trans.
    + apply combine_seq_increasing.
Qed.

(** ** Float columns *)

Lemma all_nums_nums (xs : list num) : all_nums (nums xs) = Some xs.
Proof.
  induction xs as [|x r IH]; simpl; [reflexivity|]. rewrite IH. reflexivity.
Qed.

Lemma all_nums_inv (s : list cell) (xs : list num) :
  all_nums s = Some xs -> s = nums xs.
Proof.
  revert xs. induction s as [|c r IH]; simpl; intros xs.
  - intros [= <-]. reflexivity.
  - destruct c as [x| |]; try discriminate.
    destruct (all_nums r) as [ys|]; try discriminate.
    intros [= <-]. simpl. f_equal. apply IH. reflexivity.
Qed.

Lemma nums_length (xs : list num) : List.length (nums xs) = List.length xs.
Proof. apply length_map. Qed.

Lemma pick_nums (o : list nat) (xs : list num) :
  Forall (fun i => (i < List.length xs)%nat) o ->
  pick NA o (nums xs) = nums (pick NaN o xs).
Proof.
  unfold pick, nums. induction 1 as [|i o Hi Ho IH]; simpl; [reflexivity|].
  rewrite IH. f_equal.
  rewrite (nth_indep _ NA (Num NaN)) by (rewrite length_map; exact Hi).
  apply (map_nth Num).
Qed.

Lemma floats_set (t : DataFrame) (c d : string) (s : list cell) :
  floats (set t c s) d = if String.eqb c d then all_nums s else floats t d.
Proof.
  unfold floats. rewrite get_set. destruct (String.eqb c d); reflexivity.
Qed.

Lemma floats_get (t : DataFrame) (c : string) (xs : list num) :
  floats t c = Some xs -> get t c = Some (nums xs).
Proof.
  unfold floats. destruct (get t c) as [s|]; [|discriminate].
  intros H. f_equal. apply all_nums_inv, H.
Qed.

Lemma get_floats (t : DataFrame) (c : string) (xs : list num) :
  get t c = Some (nums xs) -> floats t c = Some xs.
Proof. unfold floats. intros ->. apply all_nums_nums. Qed.

(** ** What one step of the deriver does *)

Lemma step_ratio_inv (out a b : string) (t t' : DataFrame) :
  step_ratio out a b t = Some t' ->
  (guard_ratio out a b t = false /\ t' = t) \/
  (guard_ratio out a b t = true /\
   exists xs ys, floats t a = Some xs /\ floats t b = Some ys /\
     t' = set t out (nums (map2 Float.div xs ys))).
Proof.
  unfold step_ratio, guard_ratio.
  destruct (negb (has t out) && has t a && has t b).
  - destruct (floats t a) as [xs|]; [|discriminate].
    destruct (floats t b) as [ys|]; [|discriminate].
    simpl. intros [= <-]. right. split; [reflexivity|]. eauto.
  - intros [= <-]. auto.
Qed.

Lemma step_pct_inv (src total pct : string) (t t' : DataFrame) :
  String.eqb total src = false ->
  step_pct src total pct t = Some t' ->
  (guard_pct src t = false /\ t' = t) \/
  (guard_pct src t = true /\
   exists ys xs, get t "year" = Some ys /\ floats t src = Some xs /\
     t' = set (set t total (nums (transform_sum ys xs))) pct
              (nums (percent xs (transform_sum ys xs)))).
Proof.
  intros Hne. unfold step_pct, guard_pct.
  destruct (has t src && has t "year").
  - destruct (get t "year") as [ys|]; [|discriminate].
    destruct (floats t src) as [xs|] eqn:Hxs; [|discriminate].
    simpl. rewrite !floats_set, Hne, String.eqb_refl, Hxs, all_nums_nums.
    simpl. intros [= <-]. right. split; [reflexivity|]. eauto.
  - intros [= <-]. auto.
Qed.

Lemma step6_inv (t t' : DataFrame) :
  step6 t = Some t' ->
  (guard6 t = false /\ t' = t) \/
  (guard6 t = true /\
   exists xs ys, floats t "co2" = Some xs /\ floats t "gdp" = Some ys /\
     t' = set t "co2_per_gdp" (map2 div_NA xs (replace_zero_NA ys))).
Proof.
  unfold step6, guard6.
  destruct (negb (has t "co2_per_gdp") && has t "co2" && has t "gdp").
  - destruct (floats t "co2") as [xs|]; [|discriminate].
    destruct (floats t "gdp") as [ys|]; [|discriminate].
    simpl. intros [= <-]. right. split; [reflexivity|]. eauto.
  - intros [= <-]. auto.
Qed.

Lemma step2_inv (t t' : DataFrame) :
  step2 t = Some t' ->
  (guard2 t = false /\ t' = t) \/
  (guard2 t = true /\
   exists cs ys xs,
     get t "country" = Some cs /\ get t "year" = Some ys /\
     sortable cs = true /\ sortable ys = true /\
     floats (sort_values t cs ys) "co2" = Some xs /\
     t' = set (sort_values t cs ys) "cumulative_co2"
              (nums (group_cumsum (pick NA (argsort (combine cs ys)) cs) xs))).
Proof.
  unfold step2, guard2.
  destruct (negb (has t "cumulative_co2") && has t "co2" && has t "country"
            && has t "year").
  - destruct (get t "country") as [cs|] eqn:Hc; [|discriminate].
    destruct (get t "year") as [ys|] eqn:Hy; [|discriminate]. simpl.
    destruct (sortable cs) eqn:Sc; [|discriminate].
    destruct (sortable ys) eqn:Sy; [|discriminate]. simpl.
    unfold sort_values at 1. rewrite get_take_rows, Hc. simpl.
    destruct (floats (sort_values t cs ys) "co2") as [xs|] eqn:Hx;
      [|discriminate].
    simpl. intros [= <-]. right. split; [reflexivity|].
    exists cs, ys, xs. repeat split; auto.
  - intros [= <-]. auto.
Qed.

(** ** Lengths *)

Lemma map2_length {X Y Z : Type} (f : X -> Y -> Z) (xs : list X) (ys : list Y) :
  List.length (map2 f xs ys) = Nat.min (List.length xs) (List.length ys).
Proof.
  revert ys. induction xs as [|x r IH]; intros [|y ys]; simpl; auto.
Qed.

Lemma transform_sum_length (keys : list cell) (vals : list num) :
  List.length (transform_sum keys vals) = List.length keys.
Proof. apply length_map. Qed.

Lemma percent_length (a b : list num) :
  List.length (percent a b) = Nat.min (List.length a) (List.length b).
Proof. unfold percent, fillna0. rewrite !length_map. apply map2_length. Qed.

Lemma cumsum_go_length acc (keys : list cell) (vals : list num) :
  List.length (cumsum_go acc keys vals)
  = Nat.min (List.length keys) (List.length vals).
Proof.
  revert acc vals. induction keys as [|k ks IH]; intros acc [|v vs]; simpl; auto.
  destruct (missing k || is_nan v); simpl; rewrite IH; reflexivity.
Qed.

Lemma lookup_in (c : string) (s : list cell) cols :
  lookup c cols = Some s -> In (c, s) cols.
Proof.
  induction cols as [|[n v] r IH]; simpl; [discriminate|].
  destruct (String.eqb_spec n c) as [->|Hn].
  - intros [= ->]. auto.
  - auto.
Qed.

Lemma get_length (t : DataFrame) (c : string) (s : list cell) :
  lengths_ok t = true -> get t c = Some s -> List.length s = nrows t.
Proof.
  unfold lengths_ok. rewrite forallb_forall. intros H Hg.
  apply lookup_in in Hg. apply H in Hg. unfold col_ok in Hg. simpl in Hg.
  apply Nat.eqb_eq, Hg.
Qed.

Lemma floats_length (t : DataFrame) (c : string) (xs : list num) :
  lengths_ok t = true -> floats t c = Some xs -> List.length xs = nrows t.
Proof.
  intros H Hf. apply floats_get in Hf.
  rewrite <- (get_length t c _ H Hf). symmetry. apply nums_length.
Qed.

Lemma forallb_assign (p : string * list cell -> bool) c s cols :
  forallb p cols = true -> p (c, s) = true ->
  forallb p (assign c s cols) = true.
Proof.
  intros H Hp. induction cols as [|[n v] r IH]; simpl in *.
  - rewrite Hp. reflexivity.
  - apply andb_prop in H as [H1 H2].
    destruct (String.eqb n c); simpl.
    + rewrite Hp, H2. reflexivity.
    + rewrite H1, IH; auto.
Qed.

Lemma lengths_ok_set (t : DataFrame) (c : string) (s : list cell) :
  lengths_ok t = true -> List.length s = nrows t ->
  lengths_ok (set t c s) = true.
Proof.
  intros H Hl. unfold lengths_ok, set, nrows; simpl.
  apply forallb_assign; [exact H|].
  unfold col_ok; simpl. apply Nat.eqb_eq, Hl.
Qed.

Lemma lengths_ok_take_rows (o : list nat) (t : DataFrame) :
  lengths_ok (take_rows o t) = true.
Proof.
  unfold lengths_ok, take_rows, nrows; simpl.
  rewrite forallb_forall. intros col Hc.
  apply in_map_iff in Hc as (col0 & <- & _).
  unfold col_ok; simpl. rewrite !pick_length. apply Nat.eqb_refl.
Qed.

(** ** The frame of a step: which columns it leaves as they are *)

Lemma reorder_None_map (o : option (list cell)) :
  option_map (reorder NA None) o = o.
Proof. destruct o; reflexivity. Qed.

Lemma mem_app (c : string) (l l' : list string) :
  mem c (l ++ l') = mem c l || mem c l'.
Proof. apply existsb_app. Qed.

Lemma rel_refl (t : DataFrame) : Rel None [] [] t t.
Proof.
  constructor; auto; intros; rewrite reorder_None_map; reflexivity.
Qed.

Lemma rel_has (oo : option (list nat)) D U t t' (c : string) :
  Rel oo D U t t' -> mem c D = false -> has t' c = has t c.
Proof.
  intros R H. rewrite !has_get, (rel_out _ _ _ _ _ R c H).
  destruct (get t c); reflexivity.
Qed.

Lemma rel_none_get D U t t' (c : string) :
  Rel None D U t t' -> mem c D = false -> get t' c = get t c.
Proof.
  intros R H. rewrite (rel_out _ _ _ _ _ R c H). apply reorder_None_map.
Qed.

Lemma rel_none_floats D U t t' (c : string) :
  Rel None D U t t' -> mem c D = false -> floats t' c = floats t c.
Proof.
  intros R H. unfold floats. rewrite (rel_none_get _ _ _ _ _ R H). reflexivity.
Qed.

(** A step that keeps the rows in place, then any step. *)
Lemma rel_trans_l oo D1 U1 D2 U2 t t1 t2 :
  Rel None D1 U1 t t1 -> Rel oo D2 U2 t1 t2 ->
  Rel oo (D1 ++ D2) (U1 ++ U2) t t2.
Proof.
  intros R1 R2. constructor.
  - rewrite (rel_index _ _ _ _ _ R2), (rel_index _ _ _ _ _ R1). reflexivity.
  - intros c H. rewrite mem_app in H. apply orb_false_elim in H as [H1 H2].
    rewrite (rel_out _ _ _ _ _ R2 c H2), (rel_out _ _ _ _ _ R1 c H1).
    rewrite reorder_None_map. reflexivity.
  - intros c Hc H. rewrite mem_app in H. apply orb_false_elim in H as [H1 H2].
    rewrite (rel_in _ _ _ _ _ R2 c (rel_mono _ _ _ _ _ R1 c Hc) H2).
    rewrite (rel_in _ _ _ _ _ R1 c Hc H1), reorder_None_map. reflexivity.
  - intros c Hc. apply (rel_mono _ _ _ _ _ R2), (rel_mono _ _ _ _ _ R1), Hc.
Qed.

(** Any step, then a step that keeps the rows in place. *)
Lemma rel_trans_r oo D1 U1 D2 U2 t t1 t2 :
  Rel oo D1 U1 t t1 -> Rel None D2 U2 t1 t2 ->
  Rel oo (D1 ++ D2) (U1 ++ U2) t t2.
Proof.
  intros R1 R2. constructor.
  - rewrite (rel_index _ _ _ _ _ R2), (rel_index _ _ _ _ _ R1). reflexivity.
  - intros c H. rewrite mem_app in H. apply orb_false_elim in H as [H1 H2].
    rewrite (rel_out _ _ _ _ _ R2 c H2), (rel_out _ _ _ _ _ R1 c H1).
    rewrite reorder_None_map. reflexivity.
  - intros c Hc H. rewrite mem_app in H. apply orb_false_elim in H as [H1 H2].
    rewrite (rel_in _ _ _ _ _ R2 c (rel_mono _ _ _ _ _ R1 c Hc) H2).
    rewrite (rel_in _ _ _ _ _ R1 c Hc H1), reorder_None_map. reflexivity.
  - intros c Hc. apply (rel_mono _ _ _ _ _ R2), (rel_mono _ _ _ _ _ R1), Hc.
Qed.

(** An assignment to a column that was not there. *)
Lemma rel_set_new (t : DataFrame) (out : string) (s : list cell) :
  has t out = false -> Rel None [out] [] t (set t out s).
Proof.
  intros Hn. constructor.
  - reflexivity.
  - intros c H. unfold mem in H. simpl in H. rewrite orb_false_r in H.
    rewrite get_set, String.eqb_sym, H, reorder_None_map. reflexivity.
  - intros c Hc _. rewrite get_set, reorder_None_map.
    destruct (String.eqb_spec out c) as [->|]; [congruence|reflexivity].
  - intros c Hc. rewrite has_set, Hc. apply orb_true_r.
Qed.

(** An assignment to a column, there or not. *)
Lemma rel_set_any (t : DataFrame) (out : string) (s : list cell) :
  Rel None [out] [out] t (set t out s).
Proof.
  constructor.
  - reflexivity.
  - intros c H. unfold mem in H. simpl in H. rewrite orb_false_r in H.
    rewrite get_set, String.eqb_sym, H, reorder_None_map. reflexivity.
  - intros c _ H. unfold mem in H. simpl in H. rewrite orb_false_r in H.
    rewrite get_set, String.eqb_sym, H, reorder_None_map. reflexivity.
  - intros c Hc. rewrite has_set, Hc. apply orb_true_r.
Qed.

Lemma rel_take_rows (o : list nat) (t : DataFrame) :
  Rel (Some o) [] [] t (take_rows o t).
Proof.
  constructor.
  - reflexivity.
  - intros c _. apply get_take_rows.
  - intros c _ _. apply get_take_rows.
  - intros c Hc. rewrite has_take_rows. exact Hc.
Qed.

(** Larger sets of names may be given. *)
Lemma rel_weaken oo D U D' U' t t' :
  (forall c, mem c D' = false -> mem c D = false) ->
  (forall c, mem c U' = false -> mem c U = false) ->
  Rel oo D U t t' -> Rel oo D' U' t t'.
Proof.
  intros HD HU R. constructor.
  - apply (rel_index _ _ _ _ _ R).
  - intros c H. apply (rel_out _ _ _ _ _ R), HD, H.
  - intros c Hc H. apply (rel_in _ _ _ _ _ R); auto.
  - apply (rel_mono _ _ _ _ _ R).
Qed.

Lemma guard_ratio_no_out (out a b : string) (t : DataFrame) :
  guard_ratio out a b t = true -> has t out = false.
Proof.
  unfold guard_ratio. destruct (has t out); simpl; [discriminate|reflexivity].
Qed.

Lemma step_ratio_rel (out a b : string) (t t' : DataFrame) :
  step_ratio out a b t = Some t' -> Rel None [out] [] t t'.
Proof.
  intros H. apply step_ratio_inv in H as [[_ ->]|[G (xs & ys & _ & _ & ->)]].
  - apply (rel_weaken None [] []); auto using rel_refl.
  - apply rel_set_new. eapply guard_ratio_no_out, G.
Qed.

Lemma step6_rel (t t' : DataFrame) :
  step6 t = Some t' -> Rel None ["co2_per_gdp"] [] t t'.
Proof.
  intros H. apply step6_inv in H as [[_ ->]|[G (xs & ys & _ & _ & ->)]].
  - apply (rel_weaken None [] []); auto using rel_refl.
  - apply rel_set_new. unfold guard6 in G.
    destruct (has t "co2_per_gdp"); simpl in *; [discriminate|reflexivity].
Qed.

Lemma step_pct_rel (src total pct : string) (t t' : DataFrame) :
  String.eqb total src = false ->
  step_pct src total pct t = Some t' ->
  Rel None [total; pct] [total; pct] t t'.
Proof.
  intros Hne H.
  apply (step_pct_inv _ _ _ _ _ Hne) in H
    as [[_ ->]|[G (ys & xs & _ & _ & ->)]].
  - apply (rel_weaken None [] []); auto using rel_refl.
  - apply (rel_trans_l None [total] [total] [pct] [pct] t
                       (set t total (nums (transform_sum ys xs))));
      apply rel_set_any.
Qed.

Lemma guard2_no_out (t : DataFrame) :
  guard2 t = true -> has t "cumulative_co2" = false.
Proof.
  unfold guard2.
  destruct (has t "cumulative_co2"); simpl; [discriminate|reflexivity].
Qed.

Lemma step2_rel (t t' : DataFrame) :
  step2 t = Some t' ->
  (guard2 t = false /\ t' = t) \/
  (guard2 t = true /\
   exists cs ys, get t "country" = Some cs /\ get t "year" = Some ys /\
     Rel (Some (argsort (combine cs ys))) ["cumulative_co2"] [] t t').
Proof.
  intros H.
  apply step2_inv in H
    as [[G ->]|[G (cs & ys & xs & Hc & Hy & _ & _ & _ & ->)]]; [auto|].
  right. split; [exact G|]. exists cs, ys.
  split; [exact Hc|]. split; [exact Hy|].
  apply (rel_trans_r _ [] [] ["cumulative_co2"] [] t (sort_values t cs ys)).
  - apply rel_take_rows.
  - apply rel_set_new. unfold sort_values. rewrite has_take_rows.
    apply guard2_no_out, G.
Qed.

(** ** The deriver returns a table on every normalised table *)

Lemma normalized_inv (t : DataFrame) : normalized t = true -> Inv t.
Proof.
  unfold normalized, wf. intros H.
  apply andb_prop in H as [H Hy]. apply andb_prop in H as [H Hc].
  apply andb_prop in H as [H Hn]. apply andb_prop in H as [_ Hl].
  constructor; auto.
  intros c Hm Hh. rewrite forallb_forall in Hn.
  unfold mem in Hm. apply existsb_exists in Hm as (c' & Hin & E).
  apply String.eqb_eq in E. subst c'.
  specialize (Hn c Hin). rewrite Hh in Hn. simpl in Hn.
  destruct (floats t c) as [xs|]; [eauto|discriminate].
Qed.

Lemma has_get_some (t : DataFrame) (c : string) :
  has t c = true -> exists s, get t c = Some s.
Proof.
  rewrite has_get. destruct (get t c) as [s|]; [eauto|discriminate].
Qed.

Lemma inv_set (t : DataFrame) (out : string) (s : list cell) :
  Inv t -> List.length s = nrows t ->
  String.eqb out "country" = false -> String.eqb out "year" = false ->
  (mem out numeric_cols = true -> exists xs, s = nums xs) ->
  Inv (set t out s).
Proof.
  intros I Hl Hc Hy Hn. constructor.
  - apply lengths_ok_set; [apply (inv_len _ I)|exact Hl].
  - intros c Hm Hh. rewrite floats_set. rewrite has_set in Hh.
    destruct (String.eqb_spec out c) as [->|Hne].
    + destruct (Hn Hm) as [xs ->]. exists xs. apply all_nums_nums.
    + apply (inv_num _ I c Hm). exact Hh.
  - unfold column_sortable. rewrite get_set, Hc. apply (inv_country _ I).
  - unfold column_sortable. rewrite get_set, Hy. apply (inv_year _ I).
Qed.

Lemma sortable_pick (o : list nat) (s : list cell) :
  sortable s = true -> sortable (pick NA o s) = true.
Proof.
  unfold sortable. intros H. apply orb_prop in H. apply orb_true_iff.
  destruct H as [H|H]; [left|right];
    rewrite forallb_forall in *; intros c Hc;
    apply in_map_iff in Hc as (i & <- & _);
    destruct (nth_in_or_default i s NA) as [Hin| ->]; auto.
Qed.

Lemma column_sortable_take_rows (o : list nat) (t : DataFrame) (c : string) :
  column_sortable t c = true -> column_sortable (take_rows o t) c = true.
Proof.
  unfold column_sortable. rewrite get_take_rows.
  destruct (get t c) as [s|]; simpl; [apply sortable_pick|reflexivity].
Qed.

Lemma floats_take_rows (o : list nat) (t : DataFrame) (c : string)
  (xs : list num) :
  lengths_ok t = true -> Forall (fun i => (i < nrows t)%nat) o ->
  floats t c = Some xs ->
  floats (take_rows o t) c = Some (pick NaN o xs).
Proof.
  intros Hl Ho Hf. apply get_floats. rewrite get_take_rows.
  rewrite (floats_get _ _ _ Hf). simpl. f_equal.
  apply pick_nums. rewrite (floats_length _ _ _ Hl Hf). exact Ho.
Qed.

Lemma inv_take_rows (o : list nat) (t : DataFrame) :
  Inv t -> Forall (fun i => (i < nrows t)%nat) o -> Inv (take_rows o t).
Proof.
  intros I Ho. constructor.
  - apply lengths_ok_take_rows.
  - intros c Hm Hh. rewrite has_take_rows in Hh.
    destruct (inv_num _ I c Hm Hh) as [xs Hx].
    exists (pick NaN o xs).
    apply floats_take_rows; auto. apply (inv_len _ I).
  - apply column_sortable_take_rows, (inv_country _ I).
  - apply column_sortable_take_rows, (inv_year _ I).
Qed.

Lemma step_ratio_total (out a b : string) (t : DataFrame) :
  Inv t -> mem a numeric_cols = true -> mem b numeric_cols = true ->
  String.eqb out "country" = false -> String.eqb out "year" = false ->
  exists t', step_ratio out a b t = Some t' /\ Inv t'.
Proof.
  intros I Ha Hb Hc Hy. unfold step_ratio.
  destruct (negb (has t out) && has t a && has t b) eqn:G; [|eauto].
  apply andb_prop in G as [G Gb]. apply andb_prop in G as [_ Ga].
  destruct (inv_num _ I a Ha Ga) as [xs Hx].
  destruct (inv_num _ I b Hb Gb) as [ys Hys].
  rewrite Hx, Hys. simpl. eexists. split; [reflexivity|].
  apply inv_set; auto.
  - rewrite nums_length, map2_length.
    rewrite (floats_length _ _ _ (inv_len _ I) Hx).
    rewrite (floats_length _ _ _ (inv_len _ I) Hys). apply Nat.min_id.
  - intros _. eauto.
Qed.

Lemma step_pct_total (src total pct : string) (t : DataFrame) :
  Inv t -> mem src numeric_cols = true ->
  String.eqb total src = false ->
  String.eqb total "country" = false -> String.eqb total "year" = false ->
  String.eqb pct "country" = false -> String.eqb pct "year" = false ->
  exists t', step_pct src total pct t = Some t' /\ Inv t'.
Proof.
  intros I Hs Hne Hc Hy Hc' Hy'. unfold step_pct.
  destruct (has t src && has t "year") eqn:G; [|eauto].
  apply andb_prop in G as [Gs Gy].
  destruct (has_get_some _ _ Gy) as [ys Hys].
  destruct (inv_num _ I src Hs Gs) as [xs Hx].
  rewrite Hys, Hx. simpl.
  rewrite !floats_set, Hne, String.eqb_refl, Hx, all_nums_nums. simpl.
  eexists. split; [reflexivity|].
  pose proof (floats_length _ _ _ (inv_len _ I) Hx) as Lx.
  pose proof (get_length _ _ _ (inv_len _ I) Hys) as Ly.
  apply inv_set; auto.
  - apply inv_set; auto.
    + rewrite nums_length, transform_sum_length. exact Ly.
    + intros _. eauto.
  - rewrite nums_length, percent_length, transform_sum_length, Lx, Ly.
    apply Nat.min_id.
  - intros _. eauto.
Qed.

Lemma step6_total (t : DataFrame) :
  Inv t -> exists t', step6 t = Some t' /\ Inv t'.
Proof.
  intros I. unfold step6.
  destruct (negb (has t "co2_per_gdp") && has t "co2" && has t "gdp") eqn:G;
    [|eauto].
  apply andb_prop in G as [G Gb]. apply andb_prop in G as [_ Ga].
  destruct (inv_num _ I "co2" eq_refl Ga) as [xs Hx].
  destruct (inv_num _ I "gdp" eq_refl Gb) as [ys Hys].
  rewrite Hx, Hys. simpl. eexists. split; [reflexivity|].
  apply inv_set; auto.
  - rewrite map2_length. unfold replace_zero_NA. rewrite length_map.
    rewrite (floats_length _ _ _ (inv_len _ I) Hx).
    rewrite (floats_length _ _ _ (inv_len _ I) Hys). apply Nat.min_id.
  - discriminate.
Qed.

Lemma argsort_in_range (t : DataFrame) (cs ys : list cell) :
  lengths_ok t = true ->
  get t "country" = Some cs -> get t "year" = Some ys ->
  Forall (fun i => (i < nrows t)%nat) (argsort (combine cs ys)).
Proof.
  intros Hl Hc Hy. rewrite Forall_forall. intros i Hi.
  apply argsort_lt in Hi. unfold key in Hi. rewrite length_combine in Hi.
  rewrite (get_length _ _ _ Hl Hc) in Hi. lia.
Qed.

Lemma argsort_rows (t : DataFrame) (cs ys : list cell) :
  lengths_ok t = true ->
  get t "country" = Some cs -> get t "year" = Some ys ->
  List.length (argsort (combine cs ys)) = nrows t.
Proof.
  intros Hl Hc Hy. rewrite argsort_length. unfold key.
  rewrite length_combine.
  rewrite (get_length _ _ _ Hl Hc), (get_length _ _ _ Hl Hy).
  apply Nat.min_id.
Qed.

Lemma step2_total (t : DataFrame) :
  Inv t -> exists t', step2 t = Some t' /\ Inv t'.
Proof.
  intros I. unfold step2.
  destruct (negb (has t "cumulative_co2") && has t "co2" && has t "country"
            && has t "year") eqn:G; [|eauto].
  apply andb_prop in G as [G Gy]. apply andb_prop in G as [G Gc].
  apply andb_prop in G as [_ Gx].
  destruct (has_get_some _ _ Gc) as [cs Hc].
  destruct (has_get_some _ _ Gy) as [ys Hy].
  pose proof (inv_country _ I) as Sc. pose proof (inv_year _ I) as Sy.
  unfold column_sortable in Sc, Sy. rewrite Hc in Sc. rewrite Hy in Sy.
  rewrite Hc, Hy. simpl. rewrite Sc, Sy. simpl.
  pose proof (argsort_in_range _ _ _ (inv_len _ I) Hc Hy) as Ho.
  pose proof (inv_take_rows _ _ I Ho) as I'.
  unfold sort_values. rewrite get_take_rows, Hc. simpl.
  destruct (inv_num _ I "co2" eq_refl Gx) as [xs Hx].
  rewrite (floats_take_rows _ _ _ _ (inv_len _ I) Ho Hx). simpl.
  eexists. split; [reflexivity|].
  apply inv_set; auto.
  - unfold group_cumsum.
    rewrite nums_length, cumsum_go_length, !pick_length.
    unfold nrows, take_rows; simpl. rewrite pick_length. apply Nat.min_id.
  - discriminate.
Qed.

Lemma derive_total_inv (t : DataFrame) :
  Inv t -> exists t', derive t = Some t' /\ Inv t'.
Proof.
  intros I0. unfold derive.
  destruct (step_ratio_total "co2_per_capita" "co2" "population" t I0)
    as (t1 & E1 & I1); auto.
  fold step1 in E1. rewrite E1. simpl.
  destruct (step2_total t1 I1) as (t2 & E2 & I2). rewrite E2. simpl.
  destruct (step_pct_total "co2" "global_total_co2" "co2_pct" t2 I2)
    as (t3 & E3 & I3); auto.
  fold step3 in E3. rewrite E3. simpl.
  destruct (step_pct_total "gdp" "global_total_gdp" "gdp_pct" t3 I3)
    as (t4 & E4 & I4); auto.
  fold step4 in E4. rewrite E4. simpl.
  destruct (step_ratio_total "gdp_per_capita" "gdp" "population" t4 I4)
    as (t5 & E5 & I5); auto.
  fold step5 in E5. rewrite E5. simpl.
  apply step6_total, I5.
Qed.

(** The deriver is total on normalised tables. *)
Lemma derive_total (t : DataFrame) :
  normalized t = true -> exists t', derive t = Some t'.
Proof.
  intros H. destruct (derive_total_inv t (normalized_inv t H)) as (t' & E & _).
  eauto.
Qed.

Lemma derive_inv (t t' : DataFrame) :
  derive t = Some t' ->
  exists t1 t2 t3 t4 t5,
    step1 t = Some t1 /\ step2 t1 = Some t2 /\ step3 t2 = Some t3 /\
    step4 t3 = Some t4 /\ step5 t4 = Some t5 /\ step6 t5 = Some t'.
Proof.
  unfold derive, bind.
  destruct (step1 t) as [t1|] eqn:E1; [|discriminate].
  destruct (step2 t1) as [t2|] eqn:E2; [|discriminate].
  destruct (step3 t2) as [t3|] eqn:E3; [|discriminate].
  destruct (step4 t3) as [t4|] eqn:E4; [|discriminate].
  destruct (step5 t4) as [t5|] eqn:E5; [|discriminate].
  intros E6. exists t1, t2, t3, t4, t5. repeat split; assumption.
Qed.

(** ** The frame of the whole deriver *)

Lemma mem_incl (c : string) (l l' : list string) :
  incl l l' -> mem c l' = false -> mem c l = false.
Proof.
  intros Hi H. unfold mem in *.
  destruct (existsb (String.eqb c) l) eqn:E; [|reflexivity].
  apply existsb_exists in E as (x & Hx & Ex).
  rewrite <- H. symmetry. apply existsb_exists. exists x. auto.
Qed.

Lemma rel_incl oo D U D' U' t t' :
  incl D D' -> incl U U' -> Rel oo D U t t' -> Rel oo D' U' t t'.
Proof.
  intros HD HU. apply rel_weaken; intros c; apply mem_incl; assumption.
Qed.

(** Steps 3 to 6, from each of them to the end. *)
Lemma tail_rels (t2 t3 t4 t5 t6 : DataFrame) :
  step3 t2 = Some t3 -> step4 t3 = Some t4 -> step5 t4 = Some t5 ->
  step6 t5 = Some t6 ->
  Rel None D36 unguarded_names t2 t6 /\
  Rel None D46 ["global_total_gdp"; "gdp_pct"] t3 t6 /\
  Rel None D56 [] t4 t6 /\
  Rel None D6 [] t5 t6.
Proof.
  intros E3 E4 E5 E6.
  apply step_pct_rel in E3; [|reflexivity].
  apply step_pct_rel in E4; [|reflexivity].
  apply step_ratio_rel in E5. apply step6_rel in E6.
  pose proof (rel_trans_l _ _ _ _ _ _ _ _ E5 E6) as R46.
  pose proof (rel_trans_l _ _ _ _ _ _ _ _ E4 R46) as R36.
  pose proof (rel_trans_l _ _ _ _ _ _ _ _ E3 R36) as R26.
  split; [|split; [|split]].
  - revert R26. apply rel_incl; incl_tac.
  - revert R36. apply rel_incl; incl_tac.
  - revert R46. apply rel_incl; incl_tac.
  - exact E6.
Qed.

Lemma step2_row_order (t t' : DataFrame) :
  step2 t = Some t' -> Rel (row_order t) ["cumulative_co2"] [] t t'.
Proof.
  intros H. unfold row_order.
  apply step2_rel in H as [[G ->]|[G (cs & ys & Hc & Hy & R)]]; rewrite G.
  - apply (rel_incl None [] []); try incl_tac. apply rel_refl.
  - rewrite Hc, Hy. exact R.
Qed.

Lemma row_order_step1 (t t1 : DataFrame) :
  step1 t = Some t1 -> row_order t1 = row_order t.
Proof.
  intros H. apply step_ratio_rel in H. unfold row_order, guard2.
  rewrite !(rel_has _ _ _ _ _ _ H) by reflexivity.
  rewrite !(rel_none_get _ _ _ _ _ H) by reflexivity. reflexivity.
Qed.

(** Steps 1 to 5, from the input to each of them. *)
Lemma head_rels (t t1 t2 t3 t4 t5 : DataFrame) :
  step1 t = Some t1 -> step2 t1 = Some t2 -> step3 t2 = Some t3 ->
  step4 t3 = Some t4 -> step5 t4 = Some t5 ->
  Rel None D1 [] t t1 /\
  Rel (row_order t) D12 [] t t2 /\
  Rel (row_order t) D13 ["global_total_co2"; "co2_pct"] t t3 /\
  Rel (row_order t) D14 unguarded_names t t4 /\
  Rel (row_order t) D15 unguarded_names t t5.
Proof.
  intros E1 E2 E3 E4 E5.
  pose proof (row_order_step1 _ _ E1) as Ho.
  apply step_ratio_rel in E1. apply step2_row_order in E2. rewrite Ho in E2.
  apply step_pct_rel in E3; [|reflexivity].
  apply step_pct_rel in E4; [|reflexivity].
  apply step_ratio_rel in E5.
  pose proof (rel_trans_l _ _ _ _ _ _ _ _ E1 E2) as R2.
  pose proof (rel_trans_r _ _ _ _ _ _ _ _ R2 E3) as R3.
  pose proof (rel_trans_r _ _ _ _ _ _ _ _ R3 E4) as R4.
  pose proof (rel_trans_r _ _ _ _ _ _ _ _ R4 E5) as R5.
  split; [exact E1|]. split; [exact R2|]. split; [exact R3|].
  split; [revert R4|revert R5]; apply rel_incl; incl_tac.
Qed.

Lemma derive_rel (t t' : DataFrame) :
  derive t = Some t' ->
  Rel (row_order t) derived_names unguarded_names t t'.
Proof.
  intros H.
  apply derive_inv in H
    as (t1 & t2 & t3 & t4 & t5 & E1 & E2 & E3 & E4 & E5 & E6).
  destruct (head_rels _ _ _ _ _ _ E1 E2 E3 E4 E5) as (_ & _ & _ & _ & R5).
  apply step6_rel in E6.
  pose proof (rel_trans_r _ _ _ _ _ _ _ _ R5 E6) as R.
  revert R. apply rel_incl; incl_tac.
Qed.

(** ** A second run of the deriver *)

Lemma step_ratio_skip (out a b : string) (t : DataFrame) :
  guard_ratio out a b t = false -> step_ratio out a b t = Some t.
Proof. unfold guard_ratio, step_ratio. intros ->. reflexivity. Qed.

Lemma step2_skip (t : DataFrame) : guard2 t = false -> step2 t = Some t.
Proof. unfold guard2, step2. intros ->. reflexivity. Qed.

Lemma step6_skip (t : DataFrame) : guard6 t = false -> step6 t = Some t.
Proof. unfold guard6, step6. intros ->. reflexivity. Qed.

Lemma step_pct_skip (src total pct : string) (t : DataFrame) :
  guard_pct src t = false -> step_pct src total pct t = Some t.
Proof. unfold guard_pct, step_pct. intros ->. reflexivity. Qed.

(** Steps 3 and 4 run again on a table that holds what they compute:
    they assign to the two columns the values these hold. *)
Lemma step_pct_settled (src total pct : string) (t : DataFrame)
  (ys : list cell) (xs : list num) :
  get t "year" = Some ys -> floats t src = Some xs ->
  get t total = Some (nums (transform_sum ys xs)) ->
  get t pct = Some (nums (percent xs (transform_sum ys xs))) ->
  step_pct src total pct t = Some t.
Proof.
  intros Hy Hx Ht Hp. unfold step_pct.
  destruct (has t src && has t "year"); [|reflexivity].
  rewrite Hy, Hx. simpl.
  rewrite (set_same _ _ _ Ht), Hx, (get_floats _ _ _ Ht). simpl.
  rewrite (set_same _ _ _ Hp). reflexivity.
Qed.

Lemma guard_ratio_after (out a b : string) (t t' : DataFrame) :
  step_ratio out a b t = Some t' -> guard_ratio out a b t' = false.
Proof.
  intros H. apply step_ratio_inv in H as [[G ->]|[_ (xs & ys & _ & _ & ->)]].
  - exact G.
  - unfold guard_ratio. rewrite has_set, String.eqb_refl. reflexivity.
Qed.

Lemma guard6_after (t t' : DataFrame) :
  step6 t = Some t' -> guard6 t' = false.
Proof.
  intros H. apply step6_inv in H as [[G ->]|[_ (xs & ys & _ & _ & ->)]].
  - exact G.
  - unfold guard6. rewrite has_set. reflexivity.
Qed.

Lemma guard2_after (t t' : DataFrame) :
  step2 t = Some t' -> guard2 t' = false.
Proof.
  intros H.
  apply step2_inv in H as [[G ->]|[_ (cs & ys & xs & _ & _ & _ & _ & _ & ->)]].
  - exact G.
  - unfold guard2. rewrite has_set. reflexivity.
Qed.

Lemma guard_ratio_stable oo D U (out a b : string) (t t' : DataFrame) :
  Rel oo D U t t' -> mem a D = false -> mem b D = false ->
  guard_ratio out a b t = false -> guard_ratio out a b t' = false.
Proof.
  intros R Ha Hb. unfold guard_ratio.
  rewrite (rel_has _ _ _ _ _ a R Ha), (rel_has _ _ _ _ _ b R Hb).
  destruct (has t out) eqn:Ho.
  - rewrite (rel_mono _ _ _ _ _ R out Ho). reflexivity.
  - destruct (has t a), (has t b), (has t' out); simpl; auto.
Qed.

Lemma guard2_stable oo D U (t t' : DataFrame) :
  Rel oo D U t t' ->
  mem "co2" D = false -> mem "country" D = false -> mem "year" D = false ->
  guard2 t = false -> guard2 t' = false.
Proof.
  intros R Ha Hb Hc. unfold guard2.
  rewrite (rel_has _ _ _ _ _ _ R Ha), (rel_has _ _ _ _ _ _ R Hb),
          (rel_has _ _ _ _ _ _ R Hc).
  destruct (has t "cumulative_co2") eqn:Ho.
  - rewrite (rel_mono _ _ _ _ _ R _ Ho). reflexivity.
  - destruct (has t "co2"), (has t "country"), (has t "year"),
      (has t' "cumulative_co2"); simpl; auto.
Qed.

Lemma guard_pct_stable oo D U (src : string) (t t' : DataFrame) :
  Rel oo D U t t' -> mem src D = false -> mem "year" D = false ->
  guard_pct src t' = guard_pct src t.
Proof.
  intros R Ha Hb. unfold guard_pct.
  rewrite (rel_has _ _ _ _ _ _ R Ha), (rel_has _ _ _ _ _ _ R Hb).
  reflexivity.
Qed.

(** Steps 3 and 4, run on the output of the deriver, change nothing. *)
Lemma step_pct_again (src total pct : string) (D U : list string)
  (t t' t6 : DataFrame) :
  String.eqb total src = false ->
  String.eqb total "year" = false -> String.eqb pct "year" = false ->
  String.eqb pct src = false -> String.eqb pct total = false ->
  step_pct src total pct t = Some t' ->
  Rel None D U t' t6 ->
  mem src D = false -> mem "year" D = false ->
  mem total D = false -> mem pct D = false ->
  step_pct src total pct t6 = Some t6.
Proof.
  intros N1 N2 N3 N4 N5 H R Ms My Mt Mp.
  pose proof (step_pct_rel _ _ _ _ _ N1 H) as R0.
  assert (Hs : mem src [total; pct] = false).
  { unfold mem; cbn [existsb].
    rewrite (String.eqb_sym src total), (String.eqb_sym src pct), N1, N4.
    reflexivity. }
  assert (Hy : mem "year" [total; pct] = false).
  { unfold mem; cbn [existsb].
    rewrite (String.eqb_sym "year" total), (String.eqb_sym "year" pct), N2, N3.
    reflexivity. }
  apply (step_pct_inv _ _ _ _ _ N1) in H
    as [[G ->]|[G (ys & xs & Hys & Hxs & ->)]].
  - apply step_pct_skip.
    rewrite (guard_pct_stable _ _ _ _ _ _ R Ms My). exact G.
  - apply step_pct_settled with (ys := ys) (xs := xs).
    + rewrite (rel_none_get _ _ _ _ _ R My), !get_set, N3, N2. exact Hys.
    + rewrite (rel_none_floats _ _ _ _ _ R Ms), !floats_set, N4, N1.
      exact Hxs.
    + rewrite (rel_none_get _ _ _ _ _ R Mt), !get_set, N5, String.eqb_refl.
      reflexivity.
    + rewrite (rel_none_get _ _ _ _ _ R Mp), !get_set, String.eqb_refl.
      reflexivity.
Qed.

Lemma derive_again (t t' : DataFrame) :
  derive t = Some t' -> derive t' = Some t'.
Proof.
  intros H.
  apply derive_inv in H
    as (t1 & t2 & t3 & t4 & t5 & E1 & E2 & E3 & E4 & E5 & E6).
  destruct (tail_rels _ _ _ _ _ E3 E4 E5 E6) as (R26 & R36 & R46 & R56).
  assert (S1 : step1 t' = Some t').
  { apply step_ratio_skip. apply guard_ratio_after in E1.
    apply step2_rel in E2 as [[_ ->]|[_ (cs & ys & _ & _ & R12)]].
    - apply (guard_ratio_stable _ _ _ _ _ _ _ _ R26); auto.
    - pose proof (rel_trans_r _ _ _ _ _ _ _ _ R12 R26) as R.
      apply (guard_ratio_stable _ _ _ _ _ _ _ _ R); auto. }
  assert (S2 : step2 t' = Some t').
  { apply step2_skip. apply guard2_after in E2.
    apply (guard2_stable _ _ _ _ _ R26); auto. }
  assert (S3 : step3 t' = Some t').
  { apply (step_pct_again "co2" "global_total_co2" "co2_pct"
             D46 ["global_total_gdp"; "gdp_pct"] t2 t3); auto. }
  assert (S4 : step4 t' = Some t').
  { apply (step_pct_again "gdp" "global_total_gdp" "gdp_pct"
             D56 [] t3 t4); auto. }
  assert (S5 : step5 t' = Some t').
  { apply step_ratio_skip. apply guard_ratio_after in E5.
    apply (guard_ratio_stable _ _ _ _ _ _ _ _ R56); auto. }
  assert (S6 : step6 t' = Some t').
  { apply step6_skip. apply guard6_after in E6. exact E6. }
  unfold derive. rewrite S1. simpl. rewrite S2. simpl. rewrite S3. simpl.
  rewrite S4. simpl. rewrite S5. simpl. exact S6.
Qed.

(** ** The cumulative sum per group is a sum over the rows so far *)

Lemma float_eqb_sym (a b : num) : Float.eqb a b = Float.eqb b a.
Proof.
  destruct a as [x| | |], b as [y| | |]; simpl; auto.
  destruct (Qeq_bool x y) eqn:E, (Qeq_bool y x) eqn:E'; auto.
  - apply Qeq_bool_iff in E. symmetry in E. apply Qeq_bool_iff in E.
    congruence.
  - apply Qeq_bool_iff in E'. symmetry in E'. apply Qeq_bool_iff in E'.
    congruence.
Qed.

Lemma float_eqb_trans (a b c : num) :
  Float.eqb a b = true -> Float.eqb b c = true -> Float.eqb a c = true.
Proof.
  destruct a as [x| | |], b as [y| | |], c as [z| | |]; simpl;
    try discriminate; auto.
  rewrite !Qeq_bool_iff. intros H1 H2. rewrite H1. exact H2.
Qed.

Lemma cell_eqb_sym (a b : cell) : cell_eqb a b = cell_eqb b a.
Proof.
  destruct a, b; simpl; auto using float_eqb_sym, String.eqb_sym.
Qed.

Lemma cell_eqb_trans (a b c : cell) :
  cell_eqb a b = true -> cell_eqb b c = true -> cell_eqb a c = true.
Proof.
  destruct a, b, c; simpl; try discriminate; auto.
  - apply float_eqb_trans.
  - rewrite !String.eqb_eq. congruence.
Qed.

Lemma same_group_refl (k : cell) : missing k = false -> same_group k k = true.
Proof.
  unfold same_group.
  destruct k as [[q| | |]|s|]; simpl; try discriminate; auto.
  - intros _. apply Qeq_bool_iff. reflexivity.
  - intros _. apply String.eqb_refl.
Qed.

Lemma same_group_missing (k x : cell) :
  missing x = true -> same_group k x = false.
Proof.
  unfold same_group. intros ->. simpl. rewrite andb_false_r. reflexivity.
Qed.

(** Two keys of one group select the same rows. *)
Lemma same_group_eq (k0 k x : cell) :
  same_group k0 k = true -> same_group k x = same_group k0 x.
Proof.
  unfold same_group. intros H.
  apply andb_prop in H as [H E]. apply andb_prop in H as [M0 M].
  rewrite M0, M. simpl. f_equal.
  destruct (cell_eqb k x) eqn:E1, (cell_eqb k0 x) eqn:E2; auto.
  - rewrite (cell_eqb_trans _ _ _ E E1) in E2. discriminate.
  - rewrite cell_eqb_sym in E.
    rewrite (cell_eqb_trans _ _ _ E E2) in E1. discriminate.
Qed.

Lemma combine_app_eq {X Y : Type} (a a' : list X) (b b' : list Y) :
  List.length a = List.length b ->
  combine (a ++ a') (b ++ b') = combine a b ++ combine a' b'.
Proof.
  revert b. induction a as [|x r IH]; intros [|y b]; simpl; try discriminate.
  - reflexivity.
  - intros [= H]. rewrite (IH _ H). reflexivity.
Qed.

Lemma group_vals_app (k : cell) (pk ks : list cell) (pv vs : list num) :
  List.length pk = List.length pv ->
  group_vals k (pk ++ ks) (pv ++ vs) = group_vals k pk pv ++ group_vals k ks vs.
Proof.
  intros H. unfold group_vals.
  rewrite (combine_app_eq _ _ _ _ H), filter_app, map_app. reflexivity.
Qed.

Lemma group_vals_one (k k' : cell) (v : num) :
  group_vals k [k'] [v] = if same_group k k' then [v] else [].
Proof. unfold group_vals. simpl. destruct (same_group k k'); reflexivity. Qed.

Lemma nansum_snoc (l : list num) (v : num) :
  nansum (l ++ [v]) = if is_nan v then nansum l else Float.add (nansum l) v.
Proof.
  unfold nansum. rewrite filter_app, fold_left_app. simpl.
  destruct (is_nan v); reflexivity.
Qed.

Lemma group_total_snoc (k0 k : cell) (v : num) (pk : list cell)
  (pv : list num) :
  List.length pk = List.length pv ->
  group_total k0 (pk ++ [k]) (pv ++ [v]) =
  if same_group k0 k && negb (is_nan v)
  then Float.add (group_total k0 pk pv) v
  else group_total k0 pk pv.
Proof.
  intros H. unfold group_total.
  rewrite (group_vals_app _ _ _ _ _ H), group_vals_one.
  destruct (same_group k0 k); simpl.
  - rewrite nansum_snoc. destruct (is_nan v); reflexivity.
  - rewrite app_nil_r. reflexivity.
Qed.

Lemma cumsum_go_nth (ks : list cell) :
  forall (vs : list num) (acc : list (cell * num)) (pk : list cell)
         (pv : list num) (j : nat),
    List.length pk = List.length pv ->
    (forall k, missing k = false -> running acc k = group_total k pk pv) ->
    (j < List.length ks)%nat -> (j < List.length vs)%nat ->
    nth j (cumsum_go acc ks vs) NaN =
    if missing (nth j ks NA) || is_nan (nth j vs NaN) then NaN
    else group_total (nth j ks NA) (pk ++ firstn (S j) ks)
                     (pv ++ firstn (S j) vs).
Proof.
  induction ks as [|k ks IH]; intros [|v vs] acc pk pv j Hl Hacc Hj Hj';
    simpl in Hj, Hj'; try lia.
  assert (Hl' : List.length (pk ++ [k]) = List.length (pv ++ [v])).
  { rewrite !length_app, Hl. reflexivity. }
  cbn [cumsum_go].
  destruct (missing k) eqn:Mk; cbn [orb].
  - (* a row with no key *)
    destruct j as [|j]; [simpl; rewrite Mk; reflexivity|].
    cbn [nth]. rewrite firstn_cons, (firstn_cons (S j) v vs).
    change (pk ++ k :: firstn (S j) ks)
      with (pk ++ [k] ++ firstn (S j) ks).
    change (pv ++ v :: firstn (S j) vs)
      with (pv ++ [v] ++ firstn (S j) vs).
    rewrite !app_assoc.
    apply IH; try lia.
    intros k0 M0. rewrite (group_total_snoc _ _ _ _ _ Hl).
    rewrite (same_group_missing _ _ Mk). simpl. apply Hacc, M0.
  - destruct (is_nan v) eqn:Nv.
    + (* a row with no value *)
      destruct j as [|j]; [simpl; rewrite Mk, Nv; reflexivity|].
      cbn [nth]. rewrite firstn_cons, (firstn_cons (S j) v vs).
      change (pk ++ k :: firstn (S j) ks)
        with (pk ++ [k] ++ firstn (S j) ks).
      change (pv ++ v :: firstn (S j) vs)
        with (pv ++ [v] ++ firstn (S j) vs).
      rewrite !app_assoc.
      apply IH; try lia.
      intros k0 M0. rewrite (group_total_snoc _ _ _ _ _ Hl), Nv.
      rewrite andb_false_r. apply Hacc, M0.
    + destruct j as [|j].
      * simpl. rewrite Mk, Nv. simpl.
        rewrite (group_total_snoc _ _ _ _ _ Hl), (same_group_refl _ Mk), Nv.
        simpl. rewrite (Hacc _ Mk). reflexivity.
      * cbn [nth]. rewrite firstn_cons, (firstn_cons (S j) v vs).
        change (pk ++ k :: firstn (S j) ks)
          with (pk ++ [k] ++ firstn (S j) ks).
        change (pv ++ v :: firstn (S j) vs)
          with (pv ++ [v] ++ firstn (S j) vs).
        rewrite !app_assoc.
        apply IH; try lia.
        intros k0 M0. rewrite (group_total_snoc _ _ _ _ _ Hl), Nv. simpl.
        rewrite andb_true_r. destruct (same_group k0 k) eqn:S0.
        -- rewrite (Hacc _ Mk). unfold group_total, group_vals.
           do 3 f_equal. apply filter_ext. intros [x y]. simpl.
           apply same_group_eq, S0.
        -- apply Hacc, M0.
Qed.

(** Row [j] of the cumulative sum: NaN where the row has no key or no value,
    and else the sum of the values, NaN skipped, of the rows of the same
    group from the first one to row [j]. *)
Lemma group_cumsum_nth (ks : list cell) (vs : list num) (j : nat) :
  (j < List.length ks)%nat -> (j < List.length vs)%nat ->
  nth j (group_cumsum ks vs) NaN =
  if missing (nth j ks NA) || is_nan (nth j vs NaN) then NaN
  else group_total (nth j ks NA) (firstn (S j) ks) (firstn (S j) vs).
Proof.
  intros Hj Hj'. unfold group_cumsum.
  apply (cumsum_go_nth ks vs [] [] [] j); auto.
Qed.

(** * The claims *)

(** ** C4: a second run changes nothing *)

(** C4.  The Metric Deriver is idempotent: on every normalised table it
    returns a table, and run again on that table it returns the same table.
    (On the second run steps 1, 2, 5 and 6 are skipped; steps 3 and 4 have no
    test of their output columns, run again, and assign to them the values
    they hold.) *)
Theorem derive_idempotent (t : DataFrame) :
  normalized t = true ->
  exists t', derive t = Some t' /\ derive t' = Some t'.
Proof.
  intros H. destruct (derive_total t H) as [t' E].
  exists t'. split; [exact E|]. apply derive_again with t, E.
Qed.

Lemma derive_idempotent_witness :
  normalized four_rows = true /\
  exists t', derive four_rows = Some t' /\ derive t' = Some t'.
Proof.
  split; [reflexivity|]. apply (derive_idempotent four_rows). reflexivity.
Defined.

(** ** C5: a zero GDP gives a missing [co2_per_gdp] *)

Lemma nth_error_map2 {X Y Z : Type} (f : X -> Y -> Z) (xs : list X)
  (ys : list Y) (i : nat) (x : X) (y : Y) :
  nth_error xs i = Some x -> nth_error ys i = Some y ->
  nth_error (map2 f xs ys) i = Some (f x y).
Proof.
  revert ys i. induction xs as [|x0 r IH]; intros [|y0 ys] [|i]; simpl;
    try discriminate.
  - intros [= ->] [= ->]. reflexivity.
  - apply IH.
Qed.

Lemma derive_inv_all (t : DataFrame) :
  normalized t = true ->
  exists t1 t2 t3 t4 t5 t',
    step1 t = Some t1 /\ step2 t1 = Some t2 /\ step3 t2 = Some t3 /\
    step4 t3 = Some t4 /\ step5 t4 = Some t5 /\ step6 t5 = Some t' /\
    derive t = Some t' /\ Inv t'.
Proof.
  intros H.
  destruct (derive_total_inv t (normalized_inv t H)) as (t' & E & I').
  destruct (derive_inv _ _ E)
    as (t1 & t2 & t3 & t4 & t5 & E1 & E2 & E3 & E4 & E5 & E6).
  exists t1, t2, t3, t4, t5, t'. repeat split; try assumption;
    apply I'.
Qed.

(** C5.  On a normalised table with columns [co2] and [gdp] and no column
    [co2_per_gdp], the deriver returns a table whose column [co2_per_gdp]
    holds, row by row, [co2 / gdp] where [gdp] is not zero and the missing
    marker [pd.NA] where [gdp] is zero: no infinity, no error.  So a row
    with [gdp = 0] and [co2 = 100] gets a missing [co2_per_gdp]. *)
Theorem co2_per_gdp_zero_gdp_missing (t : DataFrame) :
  normalized t = true ->
  has t "co2" = true -> has t "gdp" = true -> has t "co2_per_gdp" = false ->
  exists t' xs ys col,
    derive t = Some t' /\
    floats t' "co2" = Some xs /\ floats t' "gdp" = Some ys /\
    get t' "co2_per_gdp" = Some col /\ List.length col = nrows t' /\
    (forall i x y,
        nth_error xs i = Some x -> nth_error ys i = Some y ->
        nth_error col i
        = Some (if is_zero y then NA else Num (Float.div x y))) /\
    (forall i y c,
        nth_error ys i = Some y -> is_zero y = true ->
        nth_error col i = Some c -> missing c = true).
Proof.
  intros H Hx Hg Hn.
  destruct (derive_inv_all t H)
    as (t1 & t2 & t3 & t4 & t5 & t' & E1 & E2 & E3 & E4 & E5 & E6 & E & I').
  destruct (head_rels _ _ _ _ _ _ E1 E2 E3 E4 E5) as (_ & _ & _ & _ & R5).
  assert (G : guard6 t5 = true).
  { unfold guard6.
    rewrite !(rel_has _ _ _ _ _ _ R5) by reflexivity.
    rewrite Hx, Hg, Hn. reflexivity. }
  apply step6_inv in E6 as [[G' _]|[_ (xs & ys & Fx & Fy & ->)]];
    [congruence|].
  exists (set t5 "co2_per_gdp" (map2 div_NA xs (replace_zero_NA ys))),
    xs, ys, (map2 div_NA xs (replace_zero_NA ys)).
  assert (Hcol : get (set t5 "co2_per_gdp"
                        (map2 div_NA xs (replace_zero_NA ys))) "co2_per_gdp"
                 = Some (map2 div_NA xs (replace_zero_NA ys))).
  { rewrite get_set. reflexivity. }
  assert (Hrow : forall i x y,
             nth_error xs i = Some x -> nth_error ys i = Some y ->
             nth_error (map2 div_NA xs (replace_zero_NA ys)) i
             = Some (if is_zero y then NA else Num (Float.div x y))).
  { intros i x y Hi Hj.
    rewrite (nth_error_map2 div_NA xs (replace_zero_NA ys) i x
               (if is_zero y then None else Some y) Hi).
    - destruct (is_zero y); reflexivity.
    - unfold replace_zero_NA. rewrite nth_error_map, Hj. reflexivity. }
  assert (Fx' : floats (set t5 "co2_per_gdp"
                          (map2 div_NA xs (replace_zero_NA ys))) "co2"
                = Some xs) by (rewrite floats_set; exact Fx).
  assert (Fy' : floats (set t5 "co2_per_gdp"
                          (map2 div_NA xs (replace_zero_NA ys))) "gdp"
                = Some ys) by (rewrite floats_set; exact Fy).
  split; [exact E|]. split; [exact Fx'|].
  split; [exact Fy'|]. split; [exact Hcol|].
  split; [apply (get_length _ _ _ (inv_len _ I') Hcol)|].
  split; [exact Hrow|].
  intros i y c Hj Hz Hc.
  assert (Hi : exists x, nth_error xs i = Some x).
  { destruct (nth_error xs i) as [x|] eqn:Ex; [eauto|].
    apply nth_error_None in Ex.
    assert (i < List.length ys)%nat
      by (apply nth_error_Some; congruence).
    pose proof (floats_length _ _ _ (inv_len _ I') Fx').
    pose proof (floats_length _ _ _ (inv_len _ I') Fy').
    lia. }
  destruct Hi as [x Hi]. rewrite (Hrow i x y Hi Hj), Hz in Hc.
  injection Hc as <-. reflexivity.
Qed.

Lemma co2_per_gdp_zero_gdp_missing_witness :
  normalized zero_gdp = true /\
  exists t' xs ys col,
    derive zero_gdp = Some t' /\
    floats t' "co2" = Some xs /\ floats t' "gdp" = Some ys /\
    get t' "co2_per_gdp" = Some col /\ List.length col = nrows t' /\
    (forall i x y,
        nth_error xs i = Some x -> nth_error ys i = Some y ->
        nth_error col i
        = Some (if is_zero y then NA else Num (Float.div x y))) /\
    (forall i y c,
        nth_error ys i = Some y -> is_zero y = true ->
        nth_error col i = Some c -> missing c = true).
Proof.
  split; [reflexivity|].
  apply (co2_per_gdp_zero_gdp_missing zero_gdp); reflexivity.
Defined.

(** The row of the claim: [gdp = 0], [co2 = 100]. *)
Example zero_gdp_row :
  option_map (fun t' => get t' "co2_per_gdp") (derive zero_gdp)
  = Some (Some [NA]).
Proof. reflexivity. Qed.

(** ** C9: a table with no row passes through *)

(** C9.  A loaded table with no row, with columns or without, leaves the
    pipeline as it entered it: its column names are not lower-cased, no
    rename rule runs, no column is coerced and none is added. *)
Theorem pipeline_skips_empty (lower : string -> string)
  (parse : string -> num) (t : DataFrame) :
  index t = [] -> pipeline lower parse t = Some t.
Proof.
  intros H.
  assert (E : empty t = true) by (unfold empty, nrows; rewrite H; reflexivity).
  unfold pipeline. rewrite E. cbn [negb]. rewrite E. reflexivity.
Qed.

Lemma pipeline_skips_empty_witness :
  index header_only = [] /\
  pipeline ascii_lower (fun _ => NaN) header_only = Some header_only.
Proof.
  split; [reflexivity|].
  apply (pipeline_skips_empty ascii_lower (fun _ => NaN) header_only).
  reflexivity.
Defined.

(** ** The columns the deriver keeps *)

Lemma row_order_some (t : DataFrame) (o : list nat) :
  row_order t = Some o ->
  guard2 t = true /\
  exists cs ys, get t "country" = Some cs /\ get t "year" = Some ys /\
                o = argsort (combine cs ys).
Proof.
  unfold row_order. destruct (guard2 t); [|discriminate].
  destruct (get t "country") as [cs|]; [|discriminate].
  destruct (get t "year") as [ys|]; [|discriminate].
  intros [= <-]. split; [reflexivity|]. exists cs, ys. auto.
Qed.

Lemma output_order_perm (t : DataFrame) :
  lengths_ok t = true ->
  Permutation (output_order t) (seq 0 (nrows t)).
Proof.
  intros Hl. unfold output_order.
  destruct (row_order t) as [o|] eqn:E; [|reflexivity].
  apply row_order_some in E as (_ & cs & ys & Hc & Hy & ->).
  rewrite <- (argsort_rows t cs ys Hl Hc Hy), argsort_length.
  apply argsort_perm.
Qed.

Lemma reorder_output_order {A : Type} (d : A) (t : DataFrame) (xs : list A) :
  List.length xs = nrows t ->
  reorder d (row_order t) xs = pick d (output_order t) xs.
Proof.
  intros Hl. unfold output_order, reorder.
  destruct (row_order t); [reflexivity|].
  rewrite <- Hl. symmetry. apply pick_seq.
Qed.

(** Every column of the input other than the four that steps 3 and 4 assign
    is in the output with the cells it had, row for row; the rows are those of
    the input in the order [output_order]. *)
Lemma derive_frame (t t' : DataFrame) :
  lengths_ok t = true -> derive t = Some t' ->
  index t' = pick 0%nat (output_order t) (index t) /\
  forall c s,
    get t c = Some s -> mem c unguarded_names = false ->
    get t' c = Some (pick NA (output_order t) s) /\
    Permutation (combine (index t) s)
                (combine (index t') (pick NA (output_order t) s)).
Proof.
  intros Hl E. pose proof (derive_rel _ _ E) as R.
  assert (Hi : index t' = pick 0%nat (output_order t) (index t)).
  { rewrite (rel_index _ _ _ _ _ R). apply reorder_output_order. reflexivity. }
  split; [exact Hi|].
  intros c s Hg Hm.
  pose proof (get_length _ _ _ Hl Hg) as Ls.
  split.
  - rewrite (rel_in _ _ _ _ _ R c); [|rewrite has_get, Hg; reflexivity|exact Hm].
    rewrite Hg. simpl. f_equal. apply reorder_output_order, Ls.
  - rewrite Hi, (pick_combine 0%nat NA) by (symmetry; exact Ls).
    symmetry. apply pick_perm.
    rewrite length_combine, Ls, Nat.min_id.
    apply output_order_perm, Hl.
Qed.

(** ** C1 and C10: steps 3 and 4 assign their columns without a test *)

(** C1.  The deriver run on a normalised table that has a column [co2_pct]
    already (value 999): step 3 has no test of the column being there and
    assigns it again (value 100); the input value is lost.  The columns of
    steps 1, 2, 5 and 6 are kept when they are there ([derive_frame]). *)
Theorem co2_pct_present_is_overwritten :
  normalized with_pct = true /\
  get with_pct "co2_pct" = Some [z 999] /\
  exists t', derive with_pct = Some t' /\
             get t' "co2_pct" = Some [z 100].
Proof.
  split; [reflexivity|]. split; [reflexivity|].
  eexists. split; reflexivity.
Qed.

(** C10.  The deriver run on a normalised table that has a column
    [global_total_co2] already: the cells of that input column are changed
    (1 and 1 become 40 and 40), so its pairs of row label and value are not
    those of the input.  Same defect as in C1. *)
Theorem input_column_changed :
  normalized with_total = true /\
  exists s t' s',
    get with_total "global_total_co2" = Some s /\
    derive with_total = Some t' /\
    get t' "global_total_co2" = Some s' /\
    s' = [z 40; z 40] /\
    ~ Permutation (combine (index with_total) s) (combine (index t') s').
Proof.
  split; [reflexivity|].
  eexists. eexists. eexists.
  split; [reflexivity|]. split; [reflexivity|]. split; [reflexivity|].
  split; [reflexivity|].
  intros P. apply (Permutation_in (0%nat, z 1)) in P; [|left; reflexivity].
  simpl in P. destruct P as [P|[P|[]]]; discriminate P.
Qed.

(** ** C2: a zero total with a nonzero value gives an infinite share *)

(** C2.  The deriver run on two rows of one year with [co2] 5 and -5: the
    total of the year is 0, the two divisions by zero give plus and minus
    infinity, and [fillna(0)] replaces NaN only: [co2_pct] is infinite, not
    0. *)
Theorem co2_pct_infinite_on_zero_total :
  normalized cancel = true /\
  exists t', derive cancel = Some t' /\
             get t' "global_total_co2" = Some [z 0; z 0] /\
             get t' "co2_pct" = Some [Num PInf; Num NInf].
Proof.
  split; [reflexivity|]. eexists. split; reflexivity || (split; reflexivity).
Qed.

(** ** C6: the total of a year and the share of it *)

Lemma transform_sum_nth (ys : list cell) (xs : list num) (i : nat) (y : cell) :
  nth_error ys i = Some y ->
  nth_error (transform_sum ys xs) i
  = Some (if missing y then NaN else group_total y ys xs).
Proof.
  intros H. unfold transform_sum. rewrite nth_error_map, H. reflexivity.
Qed.

Lemma percent_nth (xs tot : list num) (i : nat) (x g : num) :
  nth_error xs i = Some x -> nth_error tot i = Some g ->
  nth_error (percent xs tot) i = Some (share x g).
Proof.
  intros Hx Hg. unfold percent, fillna0.
  rewrite !nth_error_map, (nth_error_map2 _ _ _ _ _ _ Hx Hg). reflexivity.
Qed.

(** What step 3 (or 4) leaves in the output of the deriver. *)
Lemma step_pct_result (src total pct : string) (D U : list string)
  (t2 t3 t' : DataFrame) :
  String.eqb total src = false ->
  String.eqb total "year" = false -> String.eqb pct "year" = false ->
  String.eqb pct src = false -> String.eqb pct total = false ->
  guard_pct src t2 = true ->
  step_pct src total pct t2 = Some t3 ->
  Rel None D U t3 t' ->
  mem src D = false -> mem "year" D = false ->
  mem total D = false -> mem pct D = false ->
  exists xs ys,
    floats t' src = Some xs /\ get t' "year" = Some ys /\
    floats t' total = Some (transform_sum ys xs) /\
    floats t' pct = Some (percent xs (transform_sum ys xs)).
Proof.
  intros N1 N2 N3 N4 N5 G H R Ms My Mt Mp.
  apply (step_pct_inv _ _ _ _ _ N1) in H
    as [[G' _]|[_ (ys & xs & Hys & Hxs & ->)]]; [congruence|].
  exists xs, ys.
  rewrite !(rel_none_floats _ _ _ _ _ R) by assumption.
  rewrite (rel_none_get _ _ _ _ _ R My).
  rewrite !floats_set, !get_set, N1, N2, N3, N4, N5, !String.eqb_refl.
  rewrite !all_nums_nums. auto.
Qed.

(** C6.  On a normalised table with columns [co2] and [year] the deriver
    returns a table in which, on every row that has a year, [global_total_co2]
    is the sum of [co2], missing values skipped, over the rows of that year
    (on a row with no year it is NaN), and [co2_pct] is [co2] over that total
    times 100 with NaN replaced by 0.  For countries A (co2 = 10) and B
    (co2 = 30) in one year both totals are 40 and the shares 25 and 75. *)
Theorem global_total_co2_is_year_sum :
  (forall t : DataFrame,
      normalized t = true -> has t "co2" = true -> has t "year" = true ->
      exists t' xs ys tot pct,
        derive t = Some t' /\
        floats t' "co2" = Some xs /\ get t' "year" = Some ys /\
        floats t' "global_total_co2" = Some tot /\
        floats t' "co2_pct" = Some pct /\
        List.length tot = nrows t' /\ List.length pct = nrows t' /\
        (forall i y, nth_error ys i = Some y -> missing y = false ->
                     nth_error tot i = Some (group_total y ys xs)) /\
        (forall i y, nth_error ys i = Some y -> missing y = true ->
                     nth_error tot i = Some NaN) /\
        (forall i x g, nth_error xs i = Some x -> nth_error tot i = Some g ->
                       nth_error pct i = Some (share x g))) /\
  (exists t', derive two_countries = Some t' /\
              get t' "global_total_co2" = Some [z 40; z 40] /\
              get t' "co2_pct" = Some [z 25; z 75]).
Proof.
  split; [|eexists; split; [reflexivity|split; reflexivity]].
  intros t H Hx Hy.
  destruct (derive_inv_all t H)
    as (t1 & t2 & t3 & t4 & t5 & t' & E1 & E2 & E3 & E4 & E5 & E6 & E & I').
  destruct (head_rels _ _ _ _ _ _ E1 E2 E3 E4 E5) as (_ & R2 & _).
  destruct (tail_rels _ _ _ _ _ E3 E4 E5 E6) as (_ & R3 & _).
  assert (G : guard_pct "co2" t2 = true).
  { unfold guard_pct. rewrite !(rel_has _ _ _ _ _ _ R2) by reflexivity.
    rewrite Hx, Hy. reflexivity. }
  destruct (step_pct_result "co2" "global_total_co2" "co2_pct" _ _ t2 t3 t'
              eq_refl eq_refl eq_refl eq_refl eq_refl G E3 R3
              eq_refl eq_refl eq_refl eq_refl)
    as (xs & ys & Fx & Fy & Ft & Fp).
  exists t', xs, ys, (transform_sum ys xs), (percent xs (transform_sum ys xs)).
  split; [exact E|]. split; [exact Fx|]. split; [exact Fy|].
  split; [exact Ft|]. split; [exact Fp|].
  split; [apply (floats_length _ _ _ (inv_len _ I') Ft)|].
  split; [apply (floats_length _ _ _ (inv_len _ I') Fp)|].
  split; [|split].
  - intros i y Hi M. rewrite (transform_sum_nth _ _ _ _ Hi), M. reflexivity.
  - intros i y Hi M. rewrite (transform_sum_nth _ _ _ _ Hi), M. reflexivity.
  - intros i x g. apply percent_nth.
Qed.

Lemma global_total_co2_is_year_sum_witness :
  normalized two_countries = true /\ has two_countries "co2" = true /\
  has two_countries "year" = true /\
  exists t' xs ys tot pct,
    derive two_countries = Some t' /\
    floats t' "co2" = Some xs /\ get t' "year" = Some ys /\
    floats t' "global_total_co2" = Some tot /\
    floats t' "co2_pct" = Some pct /\
    List.length tot = nrows t' /\ List.length pct = nrows t' /\
    (forall i y, nth_error ys i = Some y -> missing y = false ->
                 nth_error tot i = Some (group_total y ys xs)) /\
    (forall i y, nth_error ys i = Some y -> missing y = true ->
                 nth_error tot i = Some NaN) /\
    (forall i x g, nth_error xs i = Some x -> nth_error tot i = Some g ->
                   nth_error pct i = Some (share x g)).
Proof.
  split; [reflexivity|]. split; [reflexivity|]. split; [reflexivity|].
  apply (proj1 global_total_co2_is_year_sum two_countries); reflexivity.
Defined.

(** ** C3: the sort and the cumulative sum per country *)

Lemma step1_keeps_inv (t t1 : DataFrame) :
  Inv t -> step1 t = Some t1 -> Inv t1.
Proof.
  intros I E.
  destruct (step_ratio_total "co2_per_capita" "co2" "population" t I)
    as (t1' & E' & I'); auto.
  fold step1 in E'. congruence.
Qed.

(** C3.  On a normalised table with columns [co2], [country] and [year] and
    no column [cumulative_co2], the output of the deriver holds the rows of
    the input in the order [o] of a sort by (country, year): [o] is a
    permutation of the row positions, ascending in the key, and two rows
    with equivalent keys stay in the order they had ([row_before]); every
    input column (other than the four of steps 3 and 4) is in that order;
    and [cumulative_co2] is, on each row with a country and a [co2] value,
    the sum of [co2] over the rows of that country from the first one down
    to this row (NaN where the country or the value is missing).  For the
    rows (A, 2000, 10) and (A, 2001, 5) it is 10 and 15 in year order. *)
Theorem cumulative_co2_sorted_prefix_sums :
  (forall t : DataFrame,
      normalized t = true ->
      has t "co2" = true -> has t "country" = true -> has t "year" = true ->
      has t "cumulative_co2" = false ->
      exists t' cs ys xs cum,
        derive t = Some t' /\
        get t "country" = Some cs /\ get t "year" = Some ys /\
        floats t "co2" = Some xs /\
        let o := argsort (combine cs ys) in
        Permutation o (seq 0 (nrows t)) /\
        StronglySorted (row_before (combine cs ys)) o /\
        index t' = pick 0%nat o (index t) /\
        (forall c s, get t c = Some s -> mem c unguarded_names = false ->
                     get t' c = Some (pick NA o s)) /\
        floats t' "co2" = Some (pick NaN o xs) /\
        floats t' "cumulative_co2" = Some cum /\
        List.length cum = nrows t /\
        forall j, (j < nrows t)%nat ->
          nth j cum NaN =
          let k := nth j (pick NA o cs) NA in
          let v := nth j (pick NaN o xs) NaN in
          if missing k || is_nan v then NaN
          else group_total k (firstn (S j) (pick NA o cs))
                             (firstn (S j) (pick NaN o xs))) /\
  (exists t', derive country_A = Some t' /\
              get t' "year" = Some [z 2000; z 2001] /\
              get t' "cumulative_co2" = Some [z 10; z 15]) /\
  (exists t', derive country_A_reversed = Some t' /\
              index t' = [1; 0]%nat /\
              get t' "year" = Some [z 2000; z 2001] /\
              get t' "cumulative_co2" = Some [z 10; z 15]).
Proof.
  split;
    [|split; eexists; (split; [reflexivity|]); repeat split; reflexivity].
  intros t H Hx Hc Hy Hn.
  destruct (derive_inv_all t H)
    as (t1 & t2 & t3 & t4 & t5 & t' & E1 & E2 & E3 & E4 & E5 & E6 & E & I').
  pose proof (normalized_inv t H) as I0.
  pose proof (step1_keeps_inv _ _ I0 E1) as I1.
  destruct (head_rels _ _ _ _ _ _ E1 E2 E3 E4 E5) as (R1 & _).
  destruct (tail_rels _ _ _ _ _ E3 E4 E5 E6) as (R2 & _).
  assert (G : guard2 t1 = true).
  { unfold guard2. rewrite !(rel_has _ _ _ _ _ _ R1) by reflexivity.
    rewrite Hx, Hc, Hy, Hn. reflexivity. }
  assert (G0 : guard2 t = true).
  { unfold guard2. rewrite Hx, Hc, Hy, Hn. reflexivity. }
  apply step2_inv in E2
    as [[G' _]|[_ (cs & ys & xs' & Gc & Gy & _ & _ & Fs & ->)]];
    [congruence|].
  pose proof Gc as Gc1. pose proof Gy as Gy1.
  rewrite (rel_none_get _ _ _ _ _ R1) in Gc by reflexivity.
  rewrite (rel_none_get _ _ _ _ _ R1) in Gy by reflexivity.
  destruct (inv_num _ I0 "co2" eq_refl Hx) as [xs Fx].
  pose proof (inv_len _ I0) as L0. pose proof (inv_len _ I1) as L1.
  set (o := argsort (combine cs ys)) in *.
  assert (Ho : output_order t = o).
  { unfold output_order, row_order. rewrite G0, Gc, Gy. reflexivity. }
  assert (Hr : Forall (fun i => (i < nrows t1)%nat) o).
  { apply argsort_in_range; assumption. }
  assert (Fx1 : floats t1 "co2" = Some xs).
  { rewrite (rel_none_floats _ _ _ _ _ R1) by reflexivity. exact Fx. }
  unfold sort_values in Fs. fold o in Fs.
  rewrite (floats_take_rows _ _ _ _ L1 Hr Fx1) in Fs.
  injection Fs as <-.
  destruct (derive_frame t t' L0 E) as (Hi & Hcols). rewrite Ho in Hi, Hcols.
  pose proof (argsort_rows t cs ys L0 Gc Gy) as Lo. fold o in Lo.
  exists t', cs, ys, xs,
    (group_cumsum (pick NA o cs) (pick NaN o xs)).
  split; [exact E|]. split; [exact Gc|]. split; [exact Gy|].
  split; [exact Fx|]. cbv zeta. fold o.
  split.
  { rewrite <- Ho. apply output_order_perm, L0. }
  split; [apply argsort_sorted|]. split; [exact Hi|].
  split; [intros c s Hg Hm; apply (Hcols c s Hg Hm)|].
  split.
  { rewrite (rel_none_floats _ _ _ _ _ R2) by reflexivity.
    rewrite floats_set. cbn [String.eqb Ascii.eqb Bool.eqb].
    unfold sort_values. fold o.
    apply (floats_take_rows _ _ _ _ L1 Hr Fx1). }
  split.
  { rewrite (rel_none_floats _ _ _ _ _ R2) by reflexivity.
    rewrite floats_set, String.eqb_refl. apply all_nums_nums. }
  split.
  { unfold group_cumsum. rewrite cumsum_go_length, !pick_length.
    rewrite Lo. apply Nat.min_id. }
  intros j Hj.
  apply group_cumsum_nth; rewrite pick_length, Lo; exact Hj.
Qed.

Lemma cumulative_co2_sorted_prefix_sums_witness :
  normalized country_A_reversed = true /\
  has country_A_reversed "co2" = true /\
  has country_A_reversed "country" = true /\
  has country_A_reversed "year" = true /\
  has country_A_reversed "cumulative_co2" = false /\
  exists t' cs ys xs cum,
    derive country_A_reversed = Some t' /\
    get country_A_reversed "country" = Some cs /\
    get country_A_reversed "year" = Some ys /\
    floats country_A_reversed "co2" = Some xs /\
    let o := argsort (combine cs ys) in
    Permutation o (seq 0 (nrows country_A_reversed)) /\
    StronglySorted (row_before (combine cs ys)) o /\
    index t' = pick 0%nat o (index country_A_reversed) /\
    (forall c s, get country_A_reversed c = Some s ->
                 mem c unguarded_names = false ->
                 get t' c = Some (pick NA o s)) /\
    floats t' "co2" = Some (pick NaN o xs) /\
    floats t' "cumulative_co2" = Some cum /\
    List.length cum = nrows country_A_reversed /\
    forall j, (j < nrows country_A_reversed)%nat ->
      nth j cum NaN =
      let k := nth j (pick NA o cs) NA in
      let v := nth j (pick NaN o xs) NaN in
      if missing k || is_nan v then NaN
      else group_total k (firstn (S j) (pick NA o cs))
                         (firstn (S j) (pick NaN o xs)).
Proof.
  repeat (split; [reflexivity|]).
  apply (proj1 cumulative_co2_sorted_prefix_sums country_A_reversed);
    reflexivity.
Defined.

(** ** C7: the master table *)










(** ** C8: the rename rules *)

(** *** What [in] and [endswith] decide *)

Lemma prefix_iff (a s : string) :
  String.prefix a s = true <-> exists b, s = (a ++ b)%string.
Proof.
  revert s. induction a as [|x a IH]; intros s.
  - split; [intros _; exists s; reflexivity|destruct s; reflexivity].
  - destruct s as [|y s]; cbn [String.prefix String.append].
    + split; [discriminate|intros [b H]; discriminate H].
    + destruct (ascii_dec x y) as [->|Hne].
      * split.
        -- intros H. apply IH in H as [b ->]. exists b. reflexivity.
        -- intros [b H]. apply IH. exists b. congruence.
      * split; [discriminate|]. intros [b H]. congruence.
Qed.

Lemma contains_iff (sub s : string) :
  contains sub s = true <-> exists a b, s = (a ++ sub ++ b)%string.
Proof.
  induction s as [|c r IH]; cbn [contains]; rewrite orb_true_iff.
  - split.
    + intros [H|H]; [|discriminate].
      apply prefix_iff in H as [b H]. exists "", b. exact H.
    + intros (a & b & H). left. apply prefix_iff.
      destruct a; [exists b; exact H|discriminate].
  - split.
    + intros [H|H].
      * apply prefix_iff in H as [b H]. exists "", b. exact H.
      * apply IH in H as (a & b & H). exists (String c a), b.
        simpl. congruence.
    + intros (a & b & H). destruct a as [|c' a]; simpl in H.
      * left. apply prefix_iff. exists b. exact H.
      * right. apply IH. exists a, b. congruence.
Qed.

Lemma endswith_iff (s suf : string) :
  endswith s suf = true <-> exists a, s = (a ++ suf)%string.
Proof.
  induction s as [|c r IH]; cbn [endswith]; rewrite orb_true_iff, String.eqb_eq.
  - split.
    + intros [H|H]; [exists ""; exact H|discriminate].
    + intros [a H]. left. destruct a; [exact H|discriminate].
  - split.
    + intros [H|H]; [exists ""; exact H|].
      apply IH in H as [a H]. exists (String c a). simpl. congruence.
    + intros [a H]. destruct a as [|c' a]; simpl in H.
      * left. exact H.
      * right. apply IH. exists a. congruence.
Qed.

(** The rule of the target [co2] (line 48). *)
Lemma p_co2_iff (c : string) :
  p_co2 c = true <->
  c = "co2" \/ (exists a b, c = (a ++ "co2_" ++ b)%string) \/
  (exists a, c = (a ++ "co2")%string).
Proof.
  unfold p_co2.
  rewrite !orb_true_iff, String.eqb_eq, contains_iff, endswith_iff.
  split; [intros [[H|H]|H]|intros [H|[H|H]]]; auto.
Qed.

(** *** One rule *)

Lemma rule_names_guard (target : string) (p : string -> bool)
  (ns : list string) :
  mem target ns = true -> rule_names target p ns = ns.
Proof. unfold rule_names, mem. intros ->. reflexivity. Qed.

Lemma find_none_all {X : Type} (p : X -> bool) (l : list X) :
  (forall x, In x l -> p x = false) -> find p l = None.
Proof.
  induction l as [|x r IH]; intros H; simpl; [reflexivity|].
  rewrite (H x (or_introl eq_refl)). apply IH. intros y Hy. apply H. right.
  exact Hy.
Qed.

Lemma find_first {X : Type} (p : X -> bool) (pre post : list X) (c : X) :
  (forall x, In x pre -> p x = false) -> p c = true ->
  find p (pre ++ c :: post) = Some c.
Proof.
  induction pre as [|x r IH]; intros H Hc; simpl.
  - rewrite Hc. reflexivity.
  - rewrite (H x (or_introl eq_refl)). apply IH; [|exact Hc].
    intros y Hy. apply H. right. exact Hy.
Qed.

Lemma rule_names_no_match (target : string) (p : string -> bool)
  (ns : list string) :
  (forall c, In c ns -> p c = false) -> rule_names target p ns = ns.
Proof.
  intros H. unfold rule_names. rewrite (find_none_all p ns H).
  destruct (existsb (String.eqb target) ns); reflexivity.
Qed.

Lemma rename_name_absent (c target : string) (l : list string) :
  existsb (String.eqb c) l = false -> map (rename_name c target) l = l.
Proof.
  induction l as [|x r IH]; simpl; [reflexivity|].
  intros H. apply orb_false_elim in H as [H1 H2].
  unfold rename_name at 1. rewrite String.eqb_sym, H1, (IH H2). reflexivity.
Qed.

Lemma distinct_app_cons (pre post : list string) (c : string) :
  distinct (pre ++ c :: post) = true ->
  existsb (String.eqb c) pre = false /\ existsb (String.eqb c) post = false.
Proof.
  induction pre as [|x r IH]; simpl; intros H.
  - apply andb_prop in H as [H _]. apply negb_true_iff in H. auto.
  - apply andb_prop in H as [H1 H2]. apply negb_true_iff in H1.
    rewrite existsb_app in H1. simpl in H1.
    apply orb_false_elim in H1 as [_ H1].
    apply orb_false_elim in H1 as [H1 _].
    destruct (IH H2) as [Ha Hb]. rewrite String.eqb_sym, H1, Ha. auto.
Qed.

Lemma rule_names_first (target : string) (p : string -> bool)
  (pre post : list string) (c : string) :
  mem target (pre ++ c :: post) = false ->
  (forall x, In x pre -> p x = false) -> p c = true ->
  rule_names target p (pre ++ c :: post)
  = map (rename_name c target) (pre ++ c :: post) /\
  (distinct (pre ++ c :: post) = true ->
   rule_names target p (pre ++ c :: post) = pre ++ target :: post).
Proof.
  intros Hm Hpre Hc. unfold rule_names. unfold mem in Hm. rewrite Hm.
  rewrite (find_first p pre post c Hpre Hc). split; [reflexivity|].
  intros Hd. destruct (distinct_app_cons _ _ _ Hd) as [Ha Hb].
  rewrite map_app. simpl.
  rewrite (rename_name_absent _ _ _ Ha), (rename_name_absent _ _ _ Hb).
  unfold rename_name. rewrite String.eqb_refl. reflexivity.
Qed.

(** A rule leaves a name as it is, or the name matched the rule and is now
    the target. *)
Lemma rule_names_nth (target : string) (p : string -> bool)
  (ns : list string) (i : nat) (d : string) :
  nth i (rule_names target p ns) d = nth i ns d \/
  (p (nth i ns d) = true /\ nth i (rule_names target p ns) d = target).
Proof.
  unfold rule_names.
  destruct (existsb (String.eqb target) ns); [auto|].
  destruct (find p ns) as [c|] eqn:F; [|auto].
  apply find_some in F as [_ Pc].
  destruct (Nat.lt_ge_cases i (List.length ns)) as [Hi|Hi].
  - rewrite (nth_indep _ d (rename_name c target d))
      by (rewrite length_map; exact Hi).
    rewrite (map_nth (rename_name c target)). unfold rename_name.
    destruct (String.eqb_spec (nth i ns d) c) as [->|]; auto.
  - left. rewrite !nth_overflow; [reflexivity|exact Hi|].
    rewrite length_map. exact Hi.
Qed.

(** *** The rules on a frame *)

Lemma names_rename (old new : string) (t : DataFrame) :
  names (rename old new t) = map (rename_name old new) (names t).
Proof. unfold names, rename; simpl. rewrite !map_map. reflexivity. Qed.

Lemma names_rule (target : string) (p : string -> bool) (t : DataFrame) :
  names (rule target p t) = rule_names target p (names t).
Proof.
  unfold rule, rule_names, has.
  destruct (existsb (String.eqb target) (names t)); [reflexivity|].
  destruct (find p (names t)); [apply names_rename|reflexivity].
Qed.

(** A rule changes names only: the rows and the cells stay. *)
Lemma data_rule (target : string) (p : string -> bool) (t : DataFrame) :
  index (rule target p t) = index t /\
  map snd (columns (rule target p t)) = map snd (columns t).
Proof.
  unfold rule. destruct (has t target); [auto|].
  destruct (find p (names t)); [|auto].
  unfold rename; simpl. rewrite map_map. auto.
Qed.

Lemma names_apply_rules (rs : list (string * (string -> bool)))
  (t : DataFrame) :
  names (apply_rules rs t) = apply_rules_names rs (names t).
Proof.
  revert t. induction rs as [|r rs IH]; intros t; simpl; [reflexivity|].
  unfold apply_rules, apply_rules_names in *. simpl.
  rewrite IH, names_rule. reflexivity.
Qed.

Lemma names_coerce_col (parse : string -> num) (t : DataFrame) (c : string) :
  names (coerce_col parse t c) = names t.
Proof.
  unfold coerce_col. destruct (has t c) eqn:H; [|reflexivity].
  destruct (get t c); [|reflexivity].
  rewrite names_set, H. reflexivity.
Qed.

Lemma names_coerce (parse : string -> num) (t : DataFrame) :
  names (coerce parse t) = names t.
Proof.
  unfold coerce. generalize numeric_cols. intros l. revert t.
  induction l as [|c l IH]; intros t; simpl; [reflexivity|].
  rewrite IH. apply names_coerce_col.
Qed.

Lemma names_lower_columns (lower : string -> string) (t : DataFrame) :
  names (lower_columns lower t) = map lower (names t).
Proof. unfold names, lower_columns; simpl. rewrite !map_map. reflexivity. Qed.

Lemma empty_lower_columns (lower : string -> string) (t : DataFrame) :
  empty (lower_columns lower t) = empty t.
Proof. unfold empty, nrows, lower_columns; simpl. rewrite length_map. reflexivity. Qed.

(** *** A column is renamed once at most *)

Lemma firstn_snoc {X : Type} (d : X) (l : list X) (k : nat) :
  (k < List.length l)%nat -> firstn (S k) l = firstn k l ++ [nth k l d].
Proof.
  revert k. induction l as [|x r IH]; intros k H; simpl in H; [lia|].
  destruct k as [|k]; [reflexivity|].
  rewrite firstn_cons, (IH k) by lia. reflexivity.
Qed.

Lemma stage_S (rs : list (string * (string -> bool))) (k : nat)
  (ns : list string) :
  (k < List.length rs)%nat ->
  stage rs (S k) ns
  = rule_names (fst (nth k rs no_rule)) (snd (nth k rs no_rule))
               (stage rs k ns).
Proof.
  intros H. unfold stage, apply_rules_names.
  rewrite (firstn_snoc no_rule rs k H), fold_left_app. reflexivity.
Qed.

Lemma no_recapture_nth (rs : list (string * (string -> bool))) (k m : nat) :
  no_recapture rs = true -> (k < m)%nat -> (m < List.length rs)%nat ->
  snd (nth m rs no_rule) (fst (nth k rs no_rule)) = false.
Proof.
  revert k m. induction rs as [|r rest IH]; intros k m H Hk Hm;
    simpl in Hm; [lia|].
  simpl in H. apply andb_prop in H as [H1 H2].
  destruct m as [|m]; [lia|]. destruct k as [|k]; simpl.
  - rewrite forallb_forall in H1.
    apply negb_true_iff, H1, nth_In. lia.
  - apply IH; [exact H2|lia|lia].
Qed.

Lemma renamed_once (rs : list (string * (string -> bool)))
  (ns : list string) (i k m : nat) (d : string) :
  no_recapture rs = true ->
  (k < m)%nat -> (m <= List.length rs)%nat ->
  nth i (stage rs (S k) ns) d <> nth i (stage rs k ns) d ->
  nth i (stage rs m ns) d = nth i (stage rs (S k) ns) d.
Proof.
  intros Hr Hk Hm Hch.
  assert (Ht : nth i (stage rs (S k) ns) d = fst (nth k rs no_rule)).
  { rewrite stage_S in * by lia.
    destruct (rule_names_nth (fst (nth k rs no_rule))
                (snd (nth k rs no_rule)) (stage rs k ns) i d) as [E|[_ E]];
      [contradiction|exact E]. }
  rewrite Ht. clear Hch.
  induction m as [|m IH]; [lia|].
  destruct (Nat.eq_dec k m) as [<-|Hne]; [exact Ht|].
  assert (IH' : nth i (stage rs m ns) d = fst (nth k rs no_rule))
    by (apply IH; lia).
  rewrite stage_S by lia.
  destruct (rule_names_nth (fst (nth m rs no_rule))
              (snd (nth m rs no_rule)) (stage rs m ns) i d) as [E|[P _]].
  - rewrite E. exact IH'.
  - rewrite IH' in P.
    rewrite (no_recapture_nth rs k m Hr) in P by lia. discriminate.
Qed.

Lemma data_apply_rules (rs : list (string * (string -> bool)))
  (t : DataFrame) :
  index (apply_rules rs t) = index t /\
  map snd (columns (apply_rules rs t)) = map snd (columns t).
Proof.
  revert t. induction rs as [|r rs IH]; intros t; [split; reflexivity|].
  unfold apply_rules in *. simpl.
  destruct (IH (rule (fst r) (snd r) t)) as [H1 H2].
  destruct (data_rule (fst r) (snd r) t) as [H3 H4].
  rewrite H1, H2. auto.
Qed.

(** *** A name that the rule of no other target matches *)

Lemma mem_In (c : string) (l : list string) : mem c l = true <-> In c l.
Proof.
  unfold mem. rewrite existsb_exists. split.
  - intros (x & Hx & E). apply String.eqb_eq in E. subst. exact Hx.
  - intros H. exists c. split; [exact H|apply String.eqb_refl].
Qed.

Lemma rule_names_length (target : string) (p : string -> bool)
  (ns : list string) :
  List.length (rule_names target p ns) = List.length ns.
Proof.
  unfold rule_names. destruct (existsb (String.eqb target) ns); [reflexivity|].
  destruct (find p ns); [apply length_map|reflexivity].
Qed.

Lemma apply_rules_names_length (rs : list (string * (string -> bool)))
  (ns : list string) :
  List.length (apply_rules_names rs ns) = List.length ns.
Proof.
  revert ns. induction rs as [|r rs IH]; intros ns; [reflexivity|].
  unfold apply_rules_names in *. simpl. rewrite IH. apply rule_names_length.
Qed.

Lemma rule_names_keeps (target : string) (p : string -> bool)
  (ns : list string) (i : nat) (d n : string) :
  String.eqb target n || negb (p n) = true ->
  (i < List.length ns)%nat -> nth i ns d = n ->
  nth i (rule_names target p ns) d = n.
Proof.
  intros H Hi Hn.
  destruct (String.eqb_spec target n) as [->|Hne].
  - rewrite rule_names_guard; [exact Hn|].
    apply mem_In. rewrite <- Hn. apply nth_In, Hi.
  - simpl in H. apply negb_true_iff in H.
    destruct (rule_names_nth target p ns i d) as [E|[P _]];
      [congruence|]. rewrite Hn in P. congruence.
Qed.

Lemma apply_rules_names_keeps (rs : list (string * (string -> bool)))
  (n d : string) :
  keeps_name rs n = true ->
  forall ns i, (i < List.length ns)%nat -> nth i ns d = n ->
               nth i (apply_rules_names rs ns) d = n.
Proof.
  induction rs as [|r rs IH]; intros H ns i Hi Hn; [exact Hn|].
  simpl in H. apply andb_prop in H as [H1 H2].
  unfold apply_rules_names in *. simpl.
  apply (IH H2); [rewrite rule_names_length; exact Hi|].
  apply rule_names_keeps; assumption.
Qed.

Lemma nth_error_nth_iff (l : list string) (i : nat) (n d : string) :
  nth_error l i = Some n <-> (i < List.length l)%nat /\ nth i l d = n.
Proof.
  split.
  - intros H. split; [apply nth_error_Some; congruence|].
    apply nth_error_nth, H.
  - intros [Hi <-]. apply nth_error_nth', Hi.
Qed.

Lemma keeps_name_firstn (rs : list (string * (string -> bool))) (n : string)
  (k : nat) :
  keeps_name rs n = true -> keeps_name (firstn k rs) n = true.
Proof.
  unfold keeps_name. revert k.
  induction rs as [|r rs IH]; intros [|k] H; try reflexivity.
  cbn [firstn forallb] in *. apply andb_prop in H as [H1 H2].
  rewrite H1, (IH k H2). reflexivity.
Qed.

Lemma stage_keeps (ns : list string) (i k : nat) (n : string) :
  In n ["country"; "year"; "co2"; "population"; "gdp"; "gdp_per_capita"] ->
  nth_error ns i = Some n ->
  nth_error (stage rules k ns) i = Some n.
Proof.
  intros Hc Hn.
  assert (K : keeps_name rules n = true).
  { simpl in Hc. destruct Hc as [<-|[<-|[<-|[<-|[<-|[<-|[]]]]]]]; reflexivity. }
  apply (nth_error_nth_iff _ _ _ "") in Hn as [Hi Hn].
  apply (nth_error_nth_iff _ _ _ "").
  unfold stage. split; [rewrite apply_rules_names_length; exact Hi|].
  apply apply_rules_names_keeps; [apply keeps_name_firstn, K|exact Hi|exact Hn].
Qed.

(** *** The predicates of the seven rules (lines 34, 39, 48, 54, 60, 66, 72) *)

Lemma p_country_iff (c : string) :
  p_country c = true <-> exists a b, c = (a ++ "country" ++ b)%string.
Proof. apply contains_iff. Qed.

Lemma p_year_iff (c : string) :
  p_year c = true <-> exists a b, c = (a ++ "year" ++ b)%string.
Proof. apply contains_iff. Qed.

Lemma p_population_iff (c : string) :
  p_population c = true <->
  (exists a b, c = (a ++ "pop" ++ b)%string) /\ c <> "co2_per_capita".
Proof.
  unfold p_population.
  rewrite andb_true_iff, negb_true_iff, contains_iff, String.eqb_neq.
  reflexivity.
Qed.

Lemma p_gdp_iff (c : string) :
  p_gdp c = true <->
  (exists a b, c = (a ++ "gdp" ++ b)%string) /\
  ~ (exists a b, c = (a ++ "per" ++ b)%string).
Proof.
  unfold p_gdp. rewrite andb_true_iff, negb_true_iff, contains_iff.
  split; intros [H1 H2]; (split; [exact H1|]).
  - intros H. apply contains_iff in H. congruence.
  - destruct (contains "per" c) eqn:E; [|reflexivity].
    exfalso. apply H2, contains_iff, E.
Qed.

Lemma p_gdp_per_capita_iff (c : string) :
  p_gdp_per_capita c = true <->
  (exists a b, c = (a ++ "gdp_per_capita" ++ b)%string) \/
  (exists a b, c = (a ++ "gdp_pc" ++ b)%string).
Proof.
  unfold p_gdp_per_capita. rewrite orb_true_iff, !contains_iff. reflexivity.
Qed.

Lemma p_co2_per_capita_iff (c : string) :
  p_co2_per_capita c = true <->
  (exists a b, c = (a ++ "co2_per_capita" ++ b)%string) \/
  ((exists a, c = (a ++ "per_capita")%string) /\
   (exists a b, c = (a ++ "co2" ++ b)%string)).
Proof.
  unfold p_co2_per_capita.
  rewrite orb_true_iff, andb_true_iff, !contains_iff, endswith_iff.
  reflexivity.
Qed.

(** C8, amended.  The schema normaliser on a raw table.
    (1) A rule does nothing when its target is a column name when the turn of
    the rule comes, that is after the renames of the rules before it.
    (2) Else it renames the first name, in column order, that satisfies its
    predicate, and nothing when there is none: one [rename] per target, which
    with distinct names changes one column.  (3) After a rule has renamed a
    column, no later rule of the pass changes the name of that column.
    (4) On a table that is not empty the rules run on the lower-cased names,
    so the names they give depend on the names of the file up to case only;
    the rules change no row and no cell.  On an empty table no name is
    lower-cased and no rule runs.  (5) The rules are the seven of lines
    31-74, in the order [country], [year], [co2], [population], [gdp],
    [gdp_per_capita], [co2_per_capita], each with the predicate of the
    script; the one of [co2] is one test on a name: it is [co2], or contains
    [co2_], or ends with [co2], and the first column that passes it is taken
    (of [x_co2] and [co2_y], in this order, the first).  (6) A column whose
    name is [country], [year], [co2], [population], [gdp] or
    [gdp_per_capita] has that name after every rule: the rule of its target
    does not run and no other rule renames it.  A column called
    [co2_per_capita] is left out of (6): see the lemma that follows. *)
Theorem rename_rules_first_match :
  (forall target p ns,
      mem target ns = true -> rule_names target p ns = ns) /\
  (forall target p ns,
      (forall c, In c ns -> p c = false) -> rule_names target p ns = ns) /\
  (forall target p pre c post,
      mem target (pre ++ c :: post) = false ->
      (forall x, In x pre -> p x = false) -> p c = true ->
      rule_names target p (pre ++ c :: post)
      = map (rename_name c target) (pre ++ c :: post) /\
      (distinct (pre ++ c :: post) = true ->
       rule_names target p (pre ++ c :: post) = pre ++ target :: post)) /\
  (forall ns i k m d,
      (k < m)%nat -> (m <= List.length rules)%nat ->
      nth i (stage rules (S k) ns) d <> nth i (stage rules k ns) d ->
      nth i (stage rules m ns) d = nth i (stage rules (S k) ns) d) /\
  (forall lower parse t,
      empty t = false ->
      pipeline lower parse t
      = derive (normalize parse (lower_columns lower t)) /\
      names (normalize parse (lower_columns lower t))
      = stage rules (List.length rules) (map lower (names t)) /\
      index (apply_rules rules (lower_columns lower t)) = index t /\
      map snd (columns (apply_rules rules (lower_columns lower t)))
      = map snd (columns t)) /\
  (forall target p t, names (rule target p t) = rule_names target p (names t)) /\
  nth_error rules 2 = Some ("co2", p_co2) /\
  (forall c, p_co2 c = true <->
             c = "co2" \/ (exists a b, c = (a ++ "co2_" ++ b)%string) \/
             (exists a, c = (a ++ "co2")%string)) /\
  (forall lower parse t, empty t = true -> pipeline lower parse t = Some t) /\
  rules = [ ("country", p_country); ("year", p_year); ("co2", p_co2);
            ("population", p_population); ("gdp", p_gdp);
            ("gdp_per_capita", p_gdp_per_capita);
            ("co2_per_capita", p_co2_per_capita) ] /\
  (forall c, p_country c = true <->
             exists a b, c = (a ++ "country" ++ b)%string) /\
  (forall c, p_year c = true <-> exists a b, c = (a ++ "year" ++ b)%string) /\
  (forall c, p_population c = true <->
             (exists a b, c = (a ++ "pop" ++ b)%string) /\
             c <> "co2_per_capita") /\
  (forall c, p_gdp c = true <->
             (exists a b, c = (a ++ "gdp" ++ b)%string) /\
             ~ (exists a b, c = (a ++ "per" ++ b)%string)) /\
  (forall c, p_gdp_per_capita c = true <->
             (exists a b, c = (a ++ "gdp_per_capita" ++ b)%string) \/
             (exists a b, c = (a ++ "gdp_pc" ++ b)%string)) /\
  (forall c, p_co2_per_capita c = true <->
             (exists a b, c = (a ++ "co2_per_capita" ++ b)%string) \/
             ((exists a, c = (a ++ "per_capita")%string) /\
              (exists a b, c = (a ++ "co2" ++ b)%string))) /\
  (forall ns i k n,
      In n ["country"; "year"; "co2"; "population"; "gdp"; "gdp_per_capita"] ->
      nth_error ns i = Some n ->
      nth_error (stage rules k ns) i = Some n) /\
  apply_rules_names rules ["x_co2"; "co2_y"] = ["co2"; "co2_y"].
Proof.
  split; [exact rule_names_guard|].
  split; [exact rule_names_no_match|].
  split; [intros target p pre c post; apply rule_names_first|].
  split; [intros ns i k m d; apply renamed_once; reflexivity|].
  split.
  { intros lower parse t He. split; [|split; [|split]].
    - unfold pipeline. rewrite He. cbn [negb].
      rewrite empty_lower_columns, He. reflexivity.
    - unfold normalize, stage.
      rewrite names_coerce, names_apply_rules, names_lower_columns.
      rewrite firstn_all. reflexivity.
    - rewrite (proj1 (data_apply_rules rules (lower_columns lower t))).
      reflexivity.
    - rewrite (proj2 (data_apply_rules rules (lower_columns lower t))).
      unfold lower_columns; simpl. rewrite map_map. reflexivity. }
  split; [exact names_rule|].
  split; [reflexivity|]. split; [exact p_co2_iff|].
  split.
  { intros lower parse t He. unfold pipeline. rewrite He. cbn [negb].
    rewrite He. reflexivity. }
  split; [reflexivity|].
  split; [exact p_country_iff|]. split; [exact p_year_iff|].
  split; [exact p_population_iff|]. split; [exact p_gdp_iff|].
  split; [exact p_gdp_per_capita_iff|]. split; [exact p_co2_per_capita_iff|].
  split; [intros ns i k n; apply stage_keeps|reflexivity].
Qed.

(** The claim as the spec states it fails on two tables.  On the header-only
    table (no row: lines 24 and 29 skip the lower-casing and the rules) the
    names stay [Country], [YEAR], [Total_CO2], where the rules on the
    lower-cased names give [country], [year], [co2].  On a table that is not
    empty with the columns [co2_per_capita] and [x_co2_per_capita] and no
    column [co2], the rule of [co2] renames the first one ([co2_] is in its
    name), so when the turn of the rule of [co2_per_capita] comes that name
    is no column and the rule runs: it renames the second column, although
    the raw table has a column of that exact name. *)
Lemma rename_rules_claim_fails :
  (empty header_only = true /\
   option_map names (pipeline ascii_lower (fun _ => NaN) header_only)
   = Some ["Country"; "YEAR"; "Total_CO2"] /\
   apply_rules_names rules (map ascii_lower (names header_only))
   = ["country"; "year"; "co2"]) /\
  (empty per_capita_twice = false /\
   names per_capita_twice = ["co2_per_capita"; "x_co2_per_capita"] /\
   stage rules 6 (names per_capita_twice) = ["co2"; "x_co2_per_capita"] /\
   names (apply_rules rules per_capita_twice) = ["co2"; "co2_per_capita"]).
Proof.
  split; [split; [|split]|split; [|split; [|split]]]; reflexivity.
Qed.

Lemma rename_rules_first_match_witness :
  mem "co2" (["country"; "year"] ++ "total_co2" :: ["co2_emissions"]) = false /\
  p_co2 "total_co2" = true /\
  distinct (["country"; "year"] ++ "total_co2" :: ["co2_emissions"]) = true /\
  rule_names "co2" p_co2
             (["country"; "year"] ++ "total_co2" :: ["co2_emissions"])
  = ["country"; "year"] ++ "co2" :: ["co2_emissions"].
Proof.
  split; [reflexivity|]. split; [reflexivity|]. split; [reflexivity|].
  apply (proj1 (proj2 (proj2 rename_rules_first_match))
           "co2" p_co2 ["country"; "year"] "total_co2" ["co2_emissions"]).
  - reflexivity.
  - intros x [<-|[<-|[]]]; reflexivity.
  - reflexivity.
  - reflexivity.
Defined.

(** The whole pipeline on a table with mixed-case names: the names are
    lower-cased, [country name] becomes [country], and [total_co2], the first
    column in column order that satisfies the rule of [co2], becomes [co2]
    while [co2_emissions] keeps its name. *)
Example pipeline_raw_table :
  option_map names (pipeline ascii_lower (fun _ => of_Z 10) raw_table)
  = Some [ "country"; "year"; "co2"; "co2_emissions"; "cumulative_co2";
           "global_total_co2"; "co2_pct" ].
Proof. reflexivity. Qed.

(** * Further properties of the code *)

(** ** The rename pass (lines 29-74) *)

Lemma distinct_NoDup (l : list string) : distinct l = true <-> NoDup l.
Proof.
  induction l as [|x r IH]; simpl.
  - split; [constructor|reflexivity].
  - rewrite andb_true_iff, negb_true_iff, IH. split.
    + intros [H1 H2]. constructor; [|exact H2].
      intros Hin. apply mem_In in Hin. unfold mem in Hin. congruence.
    + intros H. inversion H as [|? ? Hn Hr]; subst. split; [|exact Hr].
      destruct (existsb (String.eqb x) r) eqn:E; [|reflexivity].
      exfalso. apply Hn. apply mem_In. exact E.
Qed.

Lemma rule_names_distinct (target : string) (p : string -> bool)
  (ns : list string) :
  distinct ns = true -> distinct (rule_names target p ns) = true.
Proof.
  intros Hd. unfold rule_names.
  destruct (existsb (String.eqb target) ns) eqn:Hm; [exact Hd|].
  destruct (find p ns) as [c|]; [|exact Hd].
  apply distinct_NoDup. apply distinct_NoDup in Hd.
  apply NoDup_map_NoDup_ForallPairs; [|exact Hd].
  assert (Ht : forall x, In x ns -> x <> target).
  { intros x Hx ->. apply mem_In in Hx. unfold mem in Hx. congruence. }
  intros a b Ha Hb. unfold rename_name.
  destruct (String.eqb_spec a c) as [->|Na], (String.eqb_spec b c) as [->|Nb];
    intros E; try congruence.
  - symmetry in E. elim (Ht b Hb E).
  - elim (Ht a Ha E).
Qed.

Lemma apply_rules_names_distinct (rs : list (string * (string -> bool)))
  (ns : list string) :
  distinct ns = true -> distinct (apply_rules_names rs ns) = true.
Proof.
  revert ns. induction rs as [|r rs IH]; intros ns H; [exact H|].
  unfold apply_rules_names in *. simpl. apply IH, rule_names_distinct, H.
Qed.

(** X1.  The rename pass changes names only: the row labels and the cells of
    every column stay, the columns stay in their places, and column names
    that differ from one another still do after the pass. *)
Theorem rename_pass_keeps_frame (t : DataFrame) :
  index (apply_rules rules t) = index t /\
  map snd (columns (apply_rules rules t)) = map snd (columns t) /\
  List.length (names (apply_rules rules t)) = List.length (names t) /\
  (distinct (names t) = true ->
   distinct (names (apply_rules rules t)) = true).
Proof.
  destruct (data_apply_rules rules t) as [H1 H2].
  split; [exact H1|]. split; [exact H2|].
  rewrite names_apply_rules. split.
  - apply apply_rules_names_length.
  - apply apply_rules_names_distinct.
Qed.

Lemma rename_pass_keeps_frame_witness :
  distinct (names raw_table) = true /\
  distinct (names (apply_rules rules raw_table)) = true.
Proof.
  split; [reflexivity|].
  apply (proj2 (proj2 (proj2 (rename_pass_keeps_frame raw_table)))).
  reflexivity.
Defined.

(** X2.  A column called [country], [year], [co2], [population], [gdp] or
    [gdp_per_capita] keeps its name through the rename pass; a column called
    [co2_per_capita] keeps it when the table has a column [co2]. *)
Theorem canonical_names_kept (t : DataFrame) (i : nat) (n : string) :
  nth_error (names t) i = Some n ->
  In n ["country"; "year"; "co2"; "population"; "gdp"; "gdp_per_capita"]
  \/ (n = "co2_per_capita" /\ has t "co2" = true) ->
  nth_error (names (apply_rules rules t)) i = Some n.
Proof.
  rewrite names_apply_rules. intros Hn Hc.
  apply (nth_error_nth_iff _ _ _ "") in Hn as [Hi Hn].
  apply (nth_error_nth_iff _ _ _ "").
  split; [rewrite apply_rules_names_length; exact Hi|].
  destruct Hc as [Hc|[-> Hco2]].
  - apply apply_rules_names_keeps; [|exact Hi|exact Hn].
    simpl in Hc.
    destruct Hc as [<-|[<-|[<-|[<-|[<-|[<-|[]]]]]]]; reflexivity.
  - (* the rule of co2 is the only one that matches co2_per_capita; it does
       not run, since co2 is a column when its turn comes *)
    change rules with (firstn 2 rules ++ skipn 2 rules).
    unfold apply_rules_names. rewrite fold_left_app.
    fold (apply_rules_names (firstn 2 rules) (names t)).
    set (ns2 := apply_rules_names (firstn 2 rules) (names t)).
    assert (L2 : List.length ns2 = List.length (names t))
      by apply apply_rules_names_length.
    assert (H2 : nth i ns2 "" = "co2_per_capita")
      by (apply apply_rules_names_keeps; [reflexivity|exact Hi|exact Hn]).
    assert (M2 : mem "co2" ns2 = true).
    { apply mem_In in Hco2. apply (In_nth _ _ "") in Hco2 as (k & Hk & Ek).
      apply mem_In. rewrite <- (apply_rules_names_keeps (firstn 2 rules)
                                  "co2" "" eq_refl (names t) k Hk Ek).
      apply nth_In. fold ns2. rewrite L2. exact Hk. }
    cbn [skipn fold_left fst snd rules].
    rewrite (rule_names_guard "co2" p_co2 ns2 M2).
    apply (apply_rules_names_keeps
             [ ("population", p_population); ("gdp", p_gdp);
               ("gdp_per_capita", p_gdp_per_capita);
               ("co2_per_capita", p_co2_per_capita) ]
             "co2_per_capita" "" eq_refl ns2 i); [rewrite L2; exact Hi|exact H2].
Qed.

Lemma canonical_names_kept_witness :
  nth_error (names per_capita_only) 1 = Some "co2_per_capita" /\
  has per_capita_only "co2" = true /\
  nth_error (names (apply_rules rules per_capita_only)) 1
  = Some "co2_per_capita".
Proof.
  split; [reflexivity|]. split; [reflexivity|].
  apply (canonical_names_kept per_capita_only 1 "co2_per_capita").
  - reflexivity.
  - right. split; reflexivity.
Defined.

Lemma find_at {X : Type} (p : X -> bool) (l : list X) (i : nat) (d c : X) :
  (i < List.length l)%nat -> nth i l d = c -> p c = true ->
  (forall j, (j < i)%nat -> p (nth j l d) = false) ->
  find p l = Some c.
Proof.
  revert i. induction l as [|x r IH]; intros i Hi Hn Hc Hb; simpl in Hi;
    [lia|].
  destruct i as [|i]; simpl in *.
  - subst. rewrite Hc. reflexivity.
  - rewrite (Hb 0%nat) by lia.
    apply (IH i); [lia|exact Hn|exact Hc|].
    intros j Hj. apply (Hb (S j)). lia.
Qed.

Lemma rule_names_renames_at (target : string) (p : string -> bool)
  (ns : list string) (i : nat) (d : string) :
  mem target ns = false -> (i < List.length ns)%nat ->
  p (nth i ns d) = true ->
  (forall j, (j < i)%nat -> p (nth j ns d) = false) ->
  nth i (rule_names target p ns) d = target.
Proof.
  intros Hm Hi Hp Hb. unfold rule_names. unfold mem in Hm. rewrite Hm.
  rewrite (find_at p ns i d (nth i ns d) Hi eq_refl Hp Hb).
  rewrite (nth_indep _ d (rename_name (nth i ns d) target d))
    by (rewrite length_map; exact Hi).
  rewrite (map_nth (rename_name (nth i ns d) target)).
  unfold rename_name. rewrite String.eqb_refl. reflexivity.
Qed.

(** After some rules a name is the one it was or the target of one of them. *)
Lemma apply_rules_names_pos (rs : list (string * (string -> bool)))
  (ns : list string) (k : nat) (d : string) :
  nth k (apply_rules_names rs ns) d = nth k ns d \/
  In (nth k (apply_rules_names rs ns) d) (map fst rs).
Proof.
  revert ns. induction rs as [|r rs IH]; intros ns; [left; reflexivity|].
  unfold apply_rules_names in *. simpl.
  destruct (IH (rule_names (fst r) (snd r) ns)) as [E|E]; [|auto].
  rewrite E.
  destruct (rule_names_nth (fst r) (snd r) ns k d) as [E'|[_ E']]; auto.
Qed.

(** X3.  In a table with no column [co2], a column called exactly
    [co2_per_capita] that is the first column, in column order, to satisfy
    the rule of [co2] (its name contains [co2_]) is renamed to [co2] by the
    pass: the per-capita column is taken for the total. *)
Theorem co2_rule_takes_per_capita_column (t : DataFrame) (i : nat) :
  has t "co2" = false ->
  nth_error (names t) i = Some "co2_per_capita" ->
  (forall j x, (j < i)%nat -> nth_error (names t) j = Some x ->
               p_co2 x = false) ->
  nth_error (names (apply_rules rules t)) i = Some "co2".
Proof.
  rewrite names_apply_rules. intros Hno Hn Hb.
  apply (nth_error_nth_iff _ _ _ "") in Hn as [Hi Hn].
  apply (nth_error_nth_iff _ _ _ "").
  split; [rewrite apply_rules_names_length; exact Hi|].
  change rules with (firstn 2 rules ++ skipn 2 rules).
  unfold apply_rules_names. rewrite fold_left_app.
  fold (apply_rules_names (firstn 2 rules) (names t)).
  set (ns2 := apply_rules_names (firstn 2 rules) (names t)).
  assert (L2 : List.length ns2 = List.length (names t))
    by apply apply_rules_names_length.
  assert (H2 : nth i ns2 "" = "co2_per_capita")
    by (apply apply_rules_names_keeps; [reflexivity|exact Hi|exact Hn]).
  assert (Hpos : forall k, (k < List.length (names t))%nat ->
             nth k ns2 "" = nth k (names t) "" \/
             nth k ns2 "" = "country" \/ nth k ns2 "" = "year").
  { intros k Hk.
    destruct (apply_rules_names_pos (firstn 2 rules) (names t) k "")
      as [E|E]; [left; exact E|right].
    fold ns2 in E. simpl in E.
    destruct E as [E|[E|[]]]; [left|right]; symmetry; exact E. }
  assert (M2 : mem "co2" ns2 = false).
  { destruct (mem "co2" ns2) eqn:M; [|reflexivity]. exfalso.
    apply mem_In in M. apply (In_nth _ _ "") in M as (k & Hk & Ek).
    rewrite L2 in Hk.
    destruct (Hpos k Hk) as [E|[E|E]]; rewrite Ek in E; try discriminate E.
    assert (In "co2" (names t)) by (rewrite E; apply nth_In; exact Hk).
    apply mem_In in H. unfold mem in H. unfold has in Hno. congruence. }
  assert (B2 : forall j, (j < i)%nat -> p_co2 (nth j ns2 "") = false).
  { intros j Hj.
    destruct (Hpos j) as [E|[E|E]]; [lia| | |]; rewrite E; try reflexivity.
    apply (Hb j); [exact Hj|]. apply nth_error_nth'. lia. }
  cbn [skipn fold_left fst snd rules].
  apply (apply_rules_names_keeps
           [ ("population", p_population); ("gdp", p_gdp);
             ("gdp_per_capita", p_gdp_per_capita);
             ("co2_per_capita", p_co2_per_capita) ]
           "co2" "" eq_refl).
  - rewrite rule_names_length, L2. exact Hi.
  - apply rule_names_renames_at; [exact M2|rewrite L2; exact Hi| |exact B2].
    rewrite H2. reflexivity.
Qed.

Lemma co2_rule_takes_per_capita_column_witness :
  has per_capita_alone "co2" = false /\
  nth_error (names per_capita_alone) 1 = Some "co2_per_capita" /\
  nth_error (names (apply_rules rules per_capita_alone)) 1 = Some "co2".
Proof.
  split; [reflexivity|]. split; [reflexivity|].
  apply (co2_rule_takes_per_capita_column per_capita_alone 1).
  - reflexivity.
  - reflexivity.
  - intros j x Hj. destruct j as [|[|j]]; [|lia|lia].
    intros [= <-]. reflexivity.
Defined.

(** X4.  Two tests of the rules never decide: the rule of [population]
    excludes the name [co2_per_capita], which does not contain [pop]; the rule
    of [co2] tests for the name [co2], which ends with [co2]. *)
Theorem redundant_rule_tests (c : string) :
  p_population c = contains "pop" c /\
  p_co2 c = contains "co2_" c || endswith c "co2".
Proof.
  unfold p_population, p_co2. split.
  - destruct (String.eqb_spec c "co2_per_capita") as [->|]; [reflexivity|].
    apply andb_true_r.
  - destruct (String.eqb_spec "co2" c) as [<-|]; reflexivity.
Qed.

(** ** The numeric coercion (lines 76-79) *)

Lemma get_coerce_col (parse : string -> num) (t : DataFrame) (c d : string) :
  get (coerce_col parse t c) d =
  if String.eqb c d then option_map (map (to_numeric_cell parse)) (get t d)
  else get t d.
Proof.
  unfold coerce_col. destruct (has t c) eqn:H.
  - destruct (get t c) as [s|] eqn:G.
    + rewrite get_set. destruct (String.eqb_spec c d) as [<-|]; [|reflexivity].
      rewrite G. reflexivity.
    + rewrite has_get, G in H. discriminate.
  - destruct (String.eqb_spec c d) as [<-|]; [|reflexivity].
    rewrite has_get in H. destruct (get t c); [discriminate|reflexivity].
Qed.

Lemma index_coerce_col (parse : string -> num) (t : DataFrame) (c : string) :
  index (coerce_col parse t c) = index t.
Proof.
  unfold coerce_col. destruct (has t c); [|reflexivity].
  destruct (get t c); reflexivity.
Qed.

Lemma get_coerce_cols (parse : string -> num) (l : list string) :
  NoDup l ->
  forall (t : DataFrame) (d : string),
    get (fold_left (coerce_col parse) l t) d =
    if mem d l then option_map (map (to_numeric_cell parse)) (get t d)
    else get t d.
Proof.
  induction 1 as [|c l Hc Hl IH]; intros t d; [reflexivity|].
  cbn [fold_left]. rewrite IH, get_coerce_col.
  unfold mem. cbn [existsb]. rewrite (String.eqb_sym d c).
  destruct (String.eqb_spec c d) as [<-|Hne]; cbn [orb]; [|reflexivity].
  destruct (existsb (String.eqb c) l) eqn:E; [|reflexivity].
  exfalso. apply Hc. apply mem_In. exact E.
Qed.

Lemma numeric_cols_NoDup : NoDup numeric_cols.
Proof. apply distinct_NoDup. reflexivity. Qed.

Lemma get_coerce (parse : string -> num) (t : DataFrame) (d : string) :
  get (coerce parse t) d =
  if mem d numeric_cols
  then option_map (map (to_numeric_cell parse)) (get t d)
  else get t d.
Proof. apply get_coerce_cols, numeric_cols_NoDup. Qed.

Lemma index_coerce (parse : string -> num) (t : DataFrame) :
  index (coerce parse t) = index t.
Proof.
  unfold coerce. generalize numeric_cols. intros l. revert t.
  induction l as [|c l IH]; intros t; simpl; [reflexivity|].
  rewrite IH. apply index_coerce_col.
Qed.

Lemma to_numeric_cells (parse : string -> num) (s : list cell) :
  map (to_numeric_cell parse) s = nums (map (cell_value parse) s).
Proof.
  unfold nums. rewrite map_map. apply map_ext. intros [x|u|]; reflexivity.
Qed.




(** ** The columns of the output of the deriver (lines 81-110) *)

Lemma distinct_snoc (ns : list string) (c : string) :
  distinct ns = true -> mem c ns = false -> distinct (ns ++ [c]) = true.
Proof.
  intros Hd Hm. apply distinct_NoDup. apply distinct_NoDup in Hd.
  apply NoDup_app; [exact Hd|repeat constructor; intros []|].
  intros x Hx [<-|[]]. apply mem_In in Hx. congruence.
Qed.

Lemma extends_refl (ns : list string) : extends ns ns [].
Proof.
  split; [symmetry; apply app_nil_r|]. split; [intros x []|auto].
Qed.

Lemma extends_trans (a b c x y : list string) :
  extends a b x -> extends b c y -> extends a c (x ++ y).
Proof.
  intros (E1 & I1 & D1) (E2 & I2 & D2). split; [|split].
  - rewrite E2, E1, app_assoc. reflexivity.
  - apply incl_app; assumption.
  - auto.
Qed.

Lemma extends_set (t : DataFrame) (c : string) (s : list cell) :
  In c derived_names ->
  extends (names t) (names (set t c s)) (if has t c then [] else [c]).
Proof.
  intros Hc. rewrite names_set. destruct (has t c) eqn:H.
  - apply extends_refl.
  - split; [reflexivity|]. split; [intros x [<-|[]]; exact Hc|].
    intros Hd. apply distinct_snoc; assumption.
Qed.

Lemma step_ratio_names (out a b : string) (t t' : DataFrame) :
  In out derived_names -> step_ratio out a b t = Some t' ->
  exists added, extends (names t) (names t') added.
Proof.
  intros Ho H. apply step_ratio_inv in H as [[_ ->]|[_ (xs & ys & _ & _ & ->)]].
  - exists []. apply extends_refl.
  - eexists. apply extends_set, Ho.
Qed.

Lemma step_pct_names (src total pct : string) (t t' : DataFrame) :
  String.eqb total src = false ->
  In total derived_names -> In pct derived_names ->
  step_pct src total pct t = Some t' ->
  exists added, extends (names t) (names t') added.
Proof.
  intros Hne Ht Hp H.
  apply (step_pct_inv _ _ _ _ _ Hne) in H
    as [[_ ->]|[_ (ys & xs & _ & _ & ->)]].
  - exists []. apply extends_refl.
  - eexists. eapply extends_trans; apply extends_set; assumption.
Qed.

Lemma step6_names (t t' : DataFrame) :
  step6 t = Some t' -> exists added, extends (names t) (names t') added.
Proof.
  intros H. apply step6_inv in H as [[_ ->]|[_ (xs & ys & _ & _ & ->)]].
  - exists []. apply extends_refl.
  - eexists. apply extends_set. simpl. tauto.
Qed.

Lemma step2_names (t t' : DataFrame) :
  step2 t = Some t' -> exists added, extends (names t) (names t') added.
Proof.
  intros H.
  apply step2_inv in H as [[_ ->]|[_ (cs & ys & xs & _ & _ & _ & _ & _ & ->)]].
  - exists []. apply extends_refl.
  - eexists.
    rewrite <- (names_take_rows (argsort (combine cs ys)) t) at 1.
    apply extends_set. simpl. tauto.
Qed.

Lemma derive_names (t t' : DataFrame) :
  derive t = Some t' -> exists added, extends (names t) (names t') added.
Proof.
  intros H.
  apply derive_inv in H
    as (t1 & t2 & t3 & t4 & t5 & E1 & E2 & E3 & E4 & E5 & E6).
  apply step_ratio_names in E1 as [a1 X1]; [|simpl; tauto].
  apply step2_names in E2 as [a2 X2].
  apply step_pct_names in E3 as [a3 X3]; [|reflexivity|simpl; tauto..].
  apply step_pct_names in E4 as [a4 X4]; [|reflexivity|simpl; tauto..].
  apply step_ratio_names in E5 as [a5 X5]; [|simpl; tauto].
  apply step6_names in E6 as [a6 X6].
  eexists.
  exact (extends_trans _ _ _ _ _
           (extends_trans _ _ _ _ _
              (extends_trans _ _ _ _ _
                 (extends_trans _ _ _ _ _
                    (extends_trans _ _ _ _ _ X1 X2) X3) X4) X5) X6).
Qed.

Lemma inv_normalized (t : DataFrame) :
  Inv t -> distinct (names t) = true -> normalized t = true.
Proof.
  intros I Hd. unfold normalized, wf.
  change (forallb (col_ok (nrows t)) (columns t)) with (lengths_ok t).
  rewrite Hd, (inv_country _ I), (inv_year _ I), (inv_len _ I).
  rewrite !andb_true_r. cbn [andb].
  apply forallb_forall. intros c Hc.
  destruct (has t c) eqn:H; [|reflexivity].
  destruct (inv_num _ I c) as [xs ->]; [apply mem_In; exact Hc|exact H|].
  reflexivity.
Qed.

Lemma normalized_distinct (t : DataFrame) :
  normalized t = true -> distinct (names t) = true.
Proof.
  unfold normalized, wf. intros H.
  repeat (apply andb_prop in H as [H _]). exact H.
Qed.

(** X6.  On a normalised table the deriver returns a table that is
    normalised again, with the same number of rows and with the columns of
    the input, under their names and in their order, followed by the columns
    it adds, which are among the eight derived ones: no column is removed or
    renamed. *)
Theorem derive_appends_columns (t : DataFrame) :
  normalized t = true ->
  exists t' added,
    derive t = Some t' /\
    normalized t' = true /\
    nrows t' = nrows t /\
    names t' = names t ++ added /\
    incl added derived_names.
Proof.
  intros H.
  destruct (derive_total_inv t (normalized_inv t H)) as (t' & E & I').
  destruct (derive_names _ _ E) as (added & En & Hi & Hd).
  exists t', added.
  split; [exact E|].
  split; [apply inv_normalized; [exact I'|apply Hd, normalized_distinct, H]|].
  split; [|split; assumption].
  pose proof (inv_len _ (normalized_inv t H)) as L.
  destruct (derive_frame t t' L E) as [Hx _].
  unfold nrows. rewrite Hx, pick_length.
  rewrite (Permutation_length (output_order_perm t L)). apply length_seq.
Qed.

Lemma derive_appends_columns_witness :
  normalized four_rows = true /\
  exists t' added,
    derive four_rows = Some t' /\
    normalized t' = true /\
    nrows t' = nrows four_rows /\
    names t' = names four_rows ++ added /\
    incl added derived_names.
Proof.
  split; [reflexivity|]. apply (derive_appends_columns four_rows). reflexivity.
Defined.







(** ** From the file to the deriver (lines 23-110) *)

Lemma forallb_snd (p : list cell -> bool) (cols : list (string * list cell)) :
  forallb (fun col => p (snd col)) cols = forallb p (map snd cols).
Proof.
  induction cols as [|c r IH]; simpl; [reflexivity|]. rewrite IH. reflexivity.
Qed.

Lemma lengths_ok_data (t t' : DataFrame) :
  index t' = index t -> map snd (columns t') = map snd (columns t) ->
  lengths_ok t' = lengths_ok t.
Proof.
  intros Hi Hc. unfold lengths_ok, nrows. rewrite Hi.
  set (p := fun s : list cell => (List.length s =? List.length (index t))%nat).
  change (col_ok (List.length (index t)))
    with (fun col : string * list cell => p (snd col)).
  rewrite (forallb_snd p (columns t')), (forallb_snd p (columns t)), Hc.
  reflexivity.
Qed.

Lemma homogeneous_data (t t' : DataFrame) :
  map snd (columns t') = map snd (columns t) ->
  homogeneous t' = homogeneous t.
Proof.
  intros Hc. unfold homogeneous.
  rewrite (forallb_snd sortable (columns t')),
    (forallb_snd sortable (columns t)), Hc.
  reflexivity.
Qed.

Lemma homogeneous_get (t : DataFrame) (c : string) :
  homogeneous t = true -> column_sortable t c = true.
Proof.
  unfold homogeneous, column_sortable. rewrite forallb_forall. intros H.
  destruct (get t c) as [s|] eqn:G; [|reflexivity].
  apply lookup_in in G. apply (H _ G).
Qed.

Lemma lengths_ok_coerce_col (parse : string -> num) (t : DataFrame)
  (c : string) :
  lengths_ok t = true -> lengths_ok (coerce_col parse t c) = true.
Proof.
  intros H. unfold coerce_col. destruct (has t c); [|exact H].
  destruct (get t c) as [s|] eqn:G; [|exact H].
  apply lengths_ok_set; [exact H|].
  rewrite length_map. apply (get_length _ _ _ H G).
Qed.

Lemma lengths_ok_coerce (parse : string -> num) (t : DataFrame) :
  lengths_ok t = true -> lengths_ok (coerce parse t) = true.
Proof.
  unfold coerce. generalize numeric_cols. intros l. revert t.
  induction l as [|c l IH]; intros t H; simpl; [exact H|].
  apply IH, lengths_ok_coerce_col, H.
Qed.

Lemma normalize_inv (parse : string -> num) (t : DataFrame) :
  lengths_ok t = true -> homogeneous t = true -> Inv (normalize parse t).
Proof.
  intros Hl Hh. unfold normalize.
  destruct (data_apply_rules rules t) as [Ri Rc].
  set (r := apply_rules rules t) in *.
  assert (Lr : lengths_ok r = true)
    by (rewrite (lengths_ok_data t r Ri Rc); exact Hl).
  assert (Hr : homogeneous r = true)
    by (rewrite (homogeneous_data t r Rc); exact Hh).
  constructor.
  - apply lengths_ok_coerce, Lr.
  - intros c Hm Hc.
    assert (Hc' : has r c = true)
      by (unfold has in *; rewrite names_coerce in Hc; exact Hc).
    destruct (has_get_some _ _ Hc') as [s Hs].
    exists (map (cell_value parse) s). apply get_floats.
    rewrite get_coerce, Hm, Hs. cbn [option_map]. f_equal.
    apply to_numeric_cells.
  - unfold column_sortable. rewrite get_coerce.
    change (mem "country" numeric_cols) with false. cbn iota.
    apply (homogeneous_get r "country" Hr).
  - unfold column_sortable. rewrite get_coerce.
    change (mem "year" numeric_cols) with false. cbn iota.
    apply (homogeneous_get r "year" Hr).
Qed.

Lemma normalize_distinct (parse : string -> num) (t : DataFrame) :
  distinct (names t) = true -> distinct (names (normalize parse t)) = true.
Proof.
  intros Hd. unfold normalize.
  rewrite names_coerce, names_apply_rules.
  apply apply_rules_names_distinct, Hd.
Qed.

Lemma nrows_normalize (parse : string -> num) (t : DataFrame) :
  nrows (normalize parse t) = nrows t.
Proof.
  unfold normalize, nrows.
  rewrite index_coerce, (proj1 (data_apply_rules rules t)). reflexivity.
Qed.

(** X8.  The schema normaliser, run on a frame as [read_csv] gives it
    (columns as long as the index, each one of floats or of strings and NaN,
    names that differ from one another), returns a normalised table with the
    same number of rows: the tables the deriver is specified on are the ones
    it is given. *)
Theorem normalize_gives_normalized (parse : string -> num) (t : DataFrame) :
  lengths_ok t = true -> homogeneous t = true ->
  distinct (names t) = true ->
  normalized (normalize parse t) = true /\
  nrows (normalize parse t) = nrows t.
Proof.
  intros Hl Hh Hd. split; [|apply nrows_normalize].
  apply inv_normalized; [apply normalize_inv; assumption|].
  apply normalize_distinct, Hd.
Qed.

Lemma normalize_gives_normalized_witness :
  lengths_ok raw_lowered = true /\ homogeneous raw_lowered = true /\
  distinct (names raw_lowered) = true /\
  normalized (normalize (fun _ => of_Z 10) raw_lowered) = true /\
  nrows (normalize (fun _ => of_Z 10) raw_lowered) = nrows raw_lowered.
Proof.
  split; [reflexivity|]. split; [reflexivity|]. split; [reflexivity|].
  apply (normalize_gives_normalized (fun _ => of_Z 10) raw_lowered);
    reflexivity.
Defined.

Lemma lower_columns_data (lower : string -> string) (t : DataFrame) :
  index (lower_columns lower t) = index t /\
  map snd (columns (lower_columns lower t)) = map snd (columns t).
Proof.
  unfold lower_columns; simpl. rewrite map_map. simpl.
  split; [reflexivity|]. apply map_ext. intros [n s]. reflexivity.
Qed.

(** X9.  The pipeline raises no error on a frame as [read_csv] gives it whose
    column names still differ from one another once lower-cased: it returns
    a table, with as many rows as the frame; for a frame that is not empty
    that table is a normalised one, and an empty frame is returned as it
    is. *)
Theorem pipeline_returns_table (lower : string -> string)
  (parse : string -> num) (t : DataFrame) :
  lengths_ok t = true -> homogeneous t = true ->
  distinct (map lower (names t)) = true ->
  exists t',
    pipeline lower parse t = Some t' /\
    nrows t' = nrows t /\
    (empty t = false -> normalized t' = true) /\
    (empty t = true -> t' = t).
Proof.
  intros Hl Hh Hd.
  destruct (empty t) eqn:He.
  - exists t. unfold pipeline, load. rewrite He. cbn [negb]. rewrite ?He.
    repeat split; try reflexivity. discriminate.
  - destruct (lower_columns_data lower t) as [Li Lc].
    set (l := lower_columns lower t) in *.
    assert (Ll : lengths_ok l = true)
      by (rewrite (lengths_ok_data t l Li Lc); exact Hl).
    assert (Hhl : homogeneous l = true)
      by (rewrite (homogeneous_data t l Lc); exact Hh).
    assert (Dl : distinct (names l) = true)
      by (unfold l; rewrite names_lower_columns; exact Hd).
    destruct (derive_total_inv _ (normalize_inv parse l Ll Hhl))
      as (t' & E & I').
    destruct (derive_names _ _ E) as (added & X).
    exists t'.
    split; [|split; [|split; [intros _|discriminate]]].
    + assert (El : empty l = false)
        by (unfold l; rewrite empty_lower_columns; exact He).
      unfold pipeline. rewrite He. cbn [negb]. fold l.
      rewrite El. cbn [negb]. exact E.
    + pose proof (inv_len _ (normalize_inv parse l Ll Hhl)) as L.
      destruct (derive_frame _ t' L E) as [Hx _].
      unfold nrows at 1. rewrite Hx, pick_length.
      rewrite (Permutation_length (output_order_perm _ L)), length_seq.
      rewrite nrows_normalize. unfold nrows. rewrite Li. reflexivity.
    + apply inv_normalized; [exact I'|].
      destruct X as (_ & _ & X). apply X, normalize_distinct, Dl.
Qed.

Lemma pipeline_returns_table_witness :
  lengths_ok raw_table = true /\ homogeneous raw_table = true /\
  distinct (map ascii_lower (names raw_table)) = true /\
  exists t',
    pipeline ascii_lower (fun _ => of_Z 10) raw_table = Some t' /\
    nrows t' = nrows raw_table /\
    (empty raw_table = false -> normalized t' = true) /\
    (empty raw_table = true -> t' = raw_table).
Proof.
  split; [reflexivity|]. split; [reflexivity|]. split; [reflexivity|].
  apply (pipeline_returns_table ascii_lower (fun _ => of_Z 10) raw_table);
    reflexivity.
Defined.

(** ** The rows and the input columns through the deriver (lines 81-110) *)

(** X10.  The deriver keeps the rows of its input: the output holds them in
    the order [output_order], a permutation of the row positions, each with
    its row label (the index is not reset), and every input column other than
    the four that steps 3 and 4 assign holds in each row the value it had.
    When the test of line 87 fails there is no sort: the index and these
    columns are the ones of the input. *)
Theorem derive_keeps_input_rows (t t' : DataFrame) :
  lengths_ok t = true -> derive t = Some t' ->
  Permutation (output_order t) (seq 0 (nrows t)) /\
  index t' = pick 0%nat (output_order t) (index t) /\
  (forall c s, get t c = Some s -> mem c unguarded_names = false ->
               get t' c = Some (pick NA (output_order t) s)) /\
  (guard2 t = false ->
   index t' = index t /\
   forall c s, get t c = Some s -> mem c unguarded_names = false ->
               get t' c = Some s).
Proof.
  intros Hl E.
  destruct (derive_frame t t' Hl E) as [Hi Hc].
  split; [apply output_order_perm, Hl|]. split; [exact Hi|].
  split; [intros c s Hg Hm; apply (Hc c s Hg Hm)|].
  intros G. pose proof (derive_rel _ _ E) as R.
  assert (Ho : row_order t = None) by (unfold row_order; rewrite G; reflexivity).
  rewrite Ho in R. split; [apply (rel_index _ _ _ _ _ R)|].
  intros c s Hg Hm.
  rewrite (rel_in _ _ _ _ _ R c); [|rewrite has_get, Hg; reflexivity|exact Hm].
  rewrite Hg. reflexivity.
Qed.

Lemma derive_keeps_input_rows_witness :
  lengths_ok country_A_reversed = true /\
  exists t',
    derive country_A_reversed = Some t' /\
    index t' = pick 0%nat (output_order country_A_reversed)
                    (index country_A_reversed).
Proof.
  split; [reflexivity|]. eexists. split; [reflexivity|].
  apply (derive_keeps_input_rows country_A_reversed _ eq_refl eq_refl).
Defined.

(** X11.  A table that has neither a column [co2] nor a column [gdp] is
    returned as it is: no step of the deriver runs, whatever the other
    columns are. *)
Theorem derive_without_co2_and_gdp (t : DataFrame) :
  has t "co2" = false -> has t "gdp" = false -> derive t = Some t.
Proof.
  intros Hc Hg. unfold derive, step1, step3, step4, step5.
  rewrite step_ratio_skip
    by (unfold guard_ratio; rewrite Hc, andb_false_r; reflexivity).
  cbn [bind].
  rewrite step2_skip
    by (unfold guard2; rewrite Hc, andb_false_r; reflexivity).
  cbn [bind].
  rewrite step_pct_skip by (unfold guard_pct; rewrite Hc; reflexivity).
  cbn [bind].
  rewrite step_pct_skip by (unfold guard_pct; rewrite Hg; reflexivity).
  cbn [bind].
  rewrite step_ratio_skip
    by (unfold guard_ratio; rewrite Hg, andb_false_r; reflexivity).
  cbn [bind].
  apply step6_skip. unfold guard6. rewrite Hc, andb_false_r. reflexivity.
Qed.

Lemma derive_without_co2_and_gdp_witness :
  has one_row "co2" = false /\ has one_row "gdp" = false /\
  derive one_row = Some one_row.
Proof.
  split; [reflexivity|]. split; [reflexivity|].
  apply (derive_without_co2_and_gdp one_row); reflexivity.
Defined.

(** ** The ratios and the shares, row by row (lines 83-84 and 91-104) *)

Lemma steps_inv (t t1 t2 t3 t4 t5 : DataFrame) :
  Inv t ->
  step1 t = Some t1 -> step2 t1 = Some t2 -> step3 t2 = Some t3 ->
  step4 t3 = Some t4 -> step5 t4 = Some t5 ->
  Inv t1 /\ Inv t2 /\ Inv t3 /\ Inv t4 /\ Inv t5.
Proof.
  intros I0 E1 E2 E3 E4 E5.
  assert (I1 : Inv t1) by (apply (step1_keeps_inv t t1 I0 E1)).
  assert (I2 : Inv t2).
  { destruct (step2_total t1 I1) as (x & Ex & Ix).
    rewrite E2 in Ex. injection Ex as <-. exact Ix. }
  assert (I3 : Inv t3).
  { destruct (step_pct_total "co2" "global_total_co2" "co2_pct" t2 I2)
      as (x & Ex & Ix); try reflexivity.
    fold step3 in Ex. rewrite E3 in Ex. injection Ex as <-. exact Ix. }
  assert (I4 : Inv t4).
  { destruct (step_pct_total "gdp" "global_total_gdp" "gdp_pct" t3 I3)
      as (x & Ex & Ix); try reflexivity.
    fold step4 in Ex. rewrite E4 in Ex. injection Ex as <-. exact Ix. }
  assert (I5 : Inv t5).
  { destruct (step_ratio_total "gdp_per_capita" "gdp" "population" t4 I4)
      as (x & Ex & Ix); try reflexivity.
    fold step5 in Ex. rewrite E5 in Ex. injection Ex as <-. exact Ix. }
  auto.
Qed.

Lemma nth_map2 {X Y W : Type} (f : X -> Y -> W) (dx : X) (dy : Y) (dw : W)
  (xs : list X) (ys : list Y) (i : nat) :
  List.length xs = List.length ys -> (i < List.length xs)%nat ->
  nth i (map2 f xs ys) dw = f (nth i xs dx) (nth i ys dy).
Proof.
  revert ys i. induction xs as [|x r IH]; intros [|y ys] i Hl Hi;
    simpl in *; try lia.
  destruct i as [|i]; [reflexivity|]. apply IH; lia.
Qed.

Lemma pick_map2 {X Y W : Type} (f : X -> Y -> W) (dx : X) (dy : Y) (dw : W)
  (o : list nat) (xs : list X) (ys : list Y) :
  List.length xs = List.length ys ->
  Forall (fun i => (i < List.length xs)%nat) o ->
  pick dw o (map2 f xs ys) = map2 f (pick dx o xs) (pick dy o ys).
Proof.
  intros Hl. unfold pick.
  induction 1 as [|i o Hi Ho IH]; simpl; [reflexivity|].
  rewrite IH. f_equal. apply nth_map2; assumption.
Qed.

Lemma floats_reorder (oo : option (list nat)) (t t' : DataFrame) (c : string)
  (xs : list num) :
  get t' c = option_map (reorder NA oo) (get t c) ->
  floats t c = Some xs ->
  (forall o, oo = Some o -> Forall (fun i => (i < List.length xs)%nat) o) ->
  floats t' c = Some (reorder NaN oo xs).
Proof.
  intros G F Ho. apply get_floats. rewrite G, (floats_get _ _ _ F).
  cbn [option_map]. f_equal.
  destruct oo as [o|]; cbn [reorder]; [|reflexivity].
  apply pick_nums, Ho. reflexivity.
Qed.

Lemma row_order_in_range (t : DataFrame) (o : list nat) :
  lengths_ok t = true -> row_order t = Some o ->
  Forall (fun i => (i < nrows t)%nat) o.
Proof.
  intros Hl E. apply row_order_some in E as (_ & cs & ys & Hc & Hy & ->).
  apply (argsort_in_range t cs ys Hl Hc Hy).
Qed.

(** What step 1 (or 5) leaves in the output of the deriver. *)
Lemma step_ratio_result (out a b : string) (oo : option (list nat))
  (D U : list string) (t t1 t' : DataFrame) :
  lengths_ok t = true ->
  String.eqb out a = false -> String.eqb out b = false ->
  guard_ratio out a b t = true ->
  step_ratio out a b t = Some t1 ->
  Rel oo D U t1 t' ->
  (forall o, oo = Some o -> Forall (fun i => (i < nrows t)%nat) o) ->
  mem out D = false -> mem a D = false -> mem b D = false ->
  exists xs ys,
    floats t' a = Some xs /\ floats t' b = Some ys /\
    floats t' out = Some (map2 Float.div xs ys).
Proof.
  intros Hl Na Nb G E R Ho Mo Ma Mb.
  apply step_ratio_inv in E
    as [[G' _]|[_ (xs & ys & Fx & Fy & ->)]]; [congruence|].
  pose proof (floats_length _ _ _ Hl Fx) as Lx.
  pose proof (floats_length _ _ _ Hl Fy) as Ly.
  exists (reorder NaN oo xs), (reorder NaN oo ys).
  split; [|split].
  - apply (floats_reorder oo _ t' a xs (rel_out _ _ _ _ _ R a Ma)).
    + rewrite floats_set, Na. exact Fx.
    + intros o Eo. rewrite Lx. apply Ho, Eo.
  - apply (floats_reorder oo _ t' b ys (rel_out _ _ _ _ _ R b Mb)).
    + rewrite floats_set, Nb. exact Fy.
    + intros o Eo. rewrite Ly. apply Ho, Eo.
  - rewrite (floats_reorder oo _ t' out (map2 Float.div xs ys)
               (rel_out _ _ _ _ _ R out Mo)).
    + f_equal. destruct oo as [o|]; cbn [reorder]; [|reflexivity].
      apply pick_map2; [lia|]. rewrite Lx. apply Ho. reflexivity.
    + rewrite floats_set, String.eqb_refl. apply all_nums_nums.
    + intros o Eo. rewrite map2_length, Lx, Ly, Nat.min_id. apply Ho, Eo.
Qed.

Lemma is_zero_sign (q : Q) : Qeq_bool q 0 = true -> Qsign q = Eq.
Proof.
  intros H. apply Qeq_bool_iff in H. unfold Qsign.
  apply Qeq_alt. exact H.
Qed.

Lemma div_by_zero (x p : num) :
  is_zero p = true -> is_finite (Float.div x p) = false.
Proof.
  destruct p as [q| | |]; simpl; try discriminate.
  intros H. apply is_zero_sign in H.
  destruct x as [r| | |]; simpl; rewrite ?H; try reflexivity.
  destruct (Qsign r); reflexivity.
Qed.

(** X12.  [co2_per_capita] and [gdp_per_capita], when the input has the two
    columns they are made of and not the column itself: in every row of the
    output the value is the one of [co2] (of [gdp]) over the one of
    [population], as floats divide.  There is no test of the population
    being zero: on such a row the value is an infinity or NaN, never a
    finite number. *)
Theorem per_capita_is_quotient (t : DataFrame) (src out : string) :
  (src = "co2" /\ out = "co2_per_capita") \/
  (src = "gdp" /\ out = "gdp_per_capita") ->
  normalized t = true ->
  has t src = true -> has t "population" = true -> has t out = false ->
  exists t' xs ps qs,
    derive t = Some t' /\
    floats t' src = Some xs /\ floats t' "population" = Some ps /\
    floats t' out = Some qs /\
    List.length qs = nrows t' /\
    (forall i x p,
        nth_error xs i = Some x -> nth_error ps i = Some p ->
        nth_error qs i = Some (Float.div x p) /\
        (is_zero p = true -> is_finite (Float.div x p) = false)).
Proof.
  intros W H Hs Hp Ho.
  destruct (derive_inv_all t H)
    as (t1 & t2 & t3 & t4 & t5 & t' & E1 & E2 & E3 & E4 & E5 & E6 & E & I').
  pose proof (normalized_inv t H) as I0.
  destruct (steps_inv _ _ _ _ _ _ I0 E1 E2 E3 E4 E5)
    as (I1 & I2 & I3 & I4 & I5).
  destruct (head_rels _ _ _ _ _ _ E1 E2 E3 E4 E5) as (_ & _ & _ & R4 & _).
  destruct (tail_rels _ _ _ _ _ E3 E4 E5 E6) as (R36 & _ & _ & R6).
  assert (X : exists xs ps,
             floats t' src = Some xs /\ floats t' "population" = Some ps /\
             floats t' out = Some (map2 Float.div xs ps)).
  { destruct W as [[-> ->]|[-> ->]].
    - pose proof (rel_trans_r _ _ _ _ _ _ _ _ (step2_row_order _ _ E2) R36)
        as R.
      rewrite (row_order_step1 _ _ E1) in R.
      apply (step_ratio_result "co2_per_capita" "co2" "population"
               (row_order t) (["cumulative_co2"] ++ D36)
               ([] ++ unguarded_names) t t1 t' (inv_len _ I0)
               eq_refl eq_refl);
        try reflexivity; try exact R; try exact E1.
      + unfold guard_ratio. rewrite Ho, Hs, Hp. reflexivity.
      + intros o Eo. apply (row_order_in_range t o (inv_len _ I0) Eo).
    - apply (step_ratio_result "gdp_per_capita" "gdp" "population"
               None D6 [] t4 t5 t' (inv_len _ I4) eq_refl eq_refl);
        try reflexivity; try exact R6; try exact E5.
      + unfold guard_ratio.
        rewrite !(rel_has _ _ _ _ _ _ R4) by reflexivity.
        rewrite Ho, Hs, Hp. reflexivity.
      + intros o Eo. discriminate. }
  destruct X as (xs & ps & Fx & Fp & Fq).
  exists t', xs, ps, (map2 Float.div xs ps).
  split; [exact E|]. split; [exact Fx|]. split; [exact Fp|].
  split; [exact Fq|].
  split; [apply (floats_length _ _ _ (inv_len _ I') Fq)|].
  intros i x p Hx Hpp. split; [apply nth_error_map2; assumption|].
  apply div_by_zero.
Qed.

Lemma per_capita_is_quotient_witness :
  normalized with_population = true /\
  has with_population "co2" = true /\
  has with_population "population" = true /\
  has with_population "co2_per_capita" = false /\
  exists t' xs ps qs,
    derive with_population = Some t' /\
    floats t' "co2" = Some xs /\ floats t' "population" = Some ps /\
    floats t' "co2_per_capita" = Some qs /\
    List.length qs = nrows t' /\
    (forall i x p,
        nth_error xs i = Some x -> nth_error ps i = Some p ->
        nth_error qs i = Some (Float.div x p) /\
        (is_zero p = true -> is_finite (Float.div x p) = false)).
Proof.
  split; [reflexivity|]. split; [reflexivity|]. split; [reflexivity|].
  split; [reflexivity|].
  apply (per_capita_is_quotient with_population "co2" "co2_per_capita");
    try reflexivity.
  left. split; reflexivity.
Defined.

Lemma fillna0_no_nan (xs : list num) :
  Forall (fun x => is_nan x = false) (fillna0 xs).
Proof.
  unfold fillna0. apply Forall_forall. intros y Hy.
  apply in_map_iff in Hy as (x & <- & _).
  destruct (is_nan x) eqn:E; [reflexivity|exact E].
Qed.

(** X13.  Step 4 on a normalised table with columns [gdp] and [year]: in the
    output [global_total_gdp] is, on every row that has a year, the sum of
    [gdp], missing values skipped, over the rows of that year (NaN on a row
    with no year), and [gdp_pct] is [gdp] over that total times 100 with NaN
    replaced by 0; no cell of [gdp_pct] is NaN. *)
Theorem global_total_gdp_is_year_sum (t : DataFrame) :
  normalized t = true -> has t "gdp" = true -> has t "year" = true ->
  exists t' xs ys tot pct,
    derive t = Some t' /\
    floats t' "gdp" = Some xs /\ get t' "year" = Some ys /\
    floats t' "global_total_gdp" = Some tot /\
    floats t' "gdp_pct" = Some pct /\
    List.length tot = nrows t' /\ List.length pct = nrows t' /\
    (forall i y, nth_error ys i = Some y ->
                 nth_error tot i
                 = Some (if missing y then NaN else group_total y ys xs)) /\
    (forall i x g, nth_error xs i = Some x -> nth_error tot i = Some g ->
                   nth_error pct i = Some (share x g)) /\
    Forall (fun p => is_nan p = false) pct.
Proof.
  intros H Hx Hy.
  destruct (derive_inv_all t H)
    as (t1 & t2 & t3 & t4 & t5 & t' & E1 & E2 & E3 & E4 & E5 & E6 & E & I').
  destruct (head_rels _ _ _ _ _ _ E1 E2 E3 E4 E5) as (_ & _ & R3 & _).
  destruct (tail_rels _ _ _ _ _ E3 E4 E5 E6) as (_ & _ & R4 & _).
  assert (G : guard_pct "gdp" t3 = true).
  { unfold guard_pct. rewrite !(rel_has _ _ _ _ _ _ R3) by reflexivity.
    rewrite Hx, Hy. reflexivity. }
  destruct (step_pct_result "gdp" "global_total_gdp" "gdp_pct" _ _ t3 t4 t'
              eq_refl eq_refl eq_refl eq_refl eq_refl G E4 R4
              eq_refl eq_refl eq_refl eq_refl)
    as (xs & ys & Fx & Fy & Ft & Fp).
  exists t', xs, ys, (transform_sum ys xs), (percent xs (transform_sum ys xs)).
  split; [exact E|]. split; [exact Fx|]. split; [exact Fy|].
  split; [exact Ft|]. split; [exact Fp|].
  split; [apply (floats_length _ _ _ (inv_len _ I') Ft)|].
  split; [apply (floats_length _ _ _ (inv_len _ I') Fp)|].
  split; [|split].
  - intros i y Hi. apply transform_sum_nth, Hi.
  - intros i x g. apply percent_nth.
  - apply fillna0_no_nan.
Qed.

Lemma global_total_gdp_is_year_sum_witness :
  normalized four_rows = true /\ has four_rows "gdp" = true /\
  has four_rows "year" = true /\
  exists t' pct,
    derive four_rows = Some t' /\
    floats t' "gdp_pct" = Some pct /\
    Forall (fun p => is_nan p = false) pct.
Proof.
  split; [reflexivity|]. split; [reflexivity|]. split; [reflexivity|].
  destruct (global_total_gdp_is_year_sum four_rows eq_refl eq_refl eq_refl)
    as (t' & xs & ys & tot & pct & E & _ & _ & _ & Fp & _ & _ & _ & _ & N).
  exists t', pct. auto.
Defined.

(** ** The filter and the select boxes (lines 135-151, 159, 172) *)

Lemma keep_nil {X : Type} (m : list bool) : keep m (@nil X) = [].
Proof. destruct m as [|[|] m]; reflexivity. Qed.

Lemma keep_keep {X Y W : Type} (p1 : X -> bool) (p2 : Y -> bool)
  (cs : list X) (ys : list Y) (xs : list W) :
  keep (map p2 (keep (map p1 cs) ys)) (keep (map p1 cs) xs)
  = keep (map2 (fun c y => p1 c && p2 y) cs ys) xs.
Proof.
  revert ys xs. induction cs as [|c cs IH]; intros ys xs; [reflexivity|].
  destruct ys as [|y ys].
  - cbn [map keep map2]. destruct (p1 c); reflexivity.
  - destruct xs as [|x xs].
    + rewrite !keep_nil. reflexivity.
    + cbn [map keep map2]. destruct (p1 c); cbn [andb map keep].
      * destruct (p2 y); rewrite IH; reflexivity.
      * apply IH.
Qed.

Lemma map2_const_l {X Y W : Type} (f : Y -> W) (xs : list X) (ys : list Y) :
  List.length xs = List.length ys ->
  map2 (fun _ y => f y) xs ys = map f ys.
Proof.
  revert ys. induction xs as [|x r IH]; intros [|y ys] H; simpl in *;
    try discriminate; [reflexivity|].
  rewrite IH by lia. reflexivity.
Qed.

Lemma get_select_rows (m : list bool) (t : DataFrame) (c : string) :
  get (select_rows m t) c = option_map (keep m) (get t c).
Proof. apply (lookup_map_snd (keep m)). Qed.

Lemma names_select_rows (m : list bool) (t : DataFrame) :
  names (select_rows m t) = names t.
Proof. apply (names_map_snd (keep m)). Qed.

Lemma keep_nums (m : list bool) (xs : list num) :
  keep m (nums xs) = nums (keep m xs).
Proof.
  revert xs. induction m as [|b m IH]; intros [|x xs]; try reflexivity.
  simpl. destruct b; simpl; rewrite IH; reflexivity.
Qed.

Lemma floats_select_rows (m : list bool) (t : DataFrame) (c : string)
  (xs : list num) :
  floats t c = Some xs -> floats (select_rows m t) c = Some (keep m xs).
Proof.
  intros F. apply get_floats.
  rewrite get_select_rows, (floats_get _ _ _ F). cbn [option_map].
  rewrite keep_nums. reflexivity.
Qed.

Lemma select_rows_twice (m1 m2 m : list bool) (t : DataFrame) :
  (forall X (xs : list X), keep m2 (keep m1 xs) = keep m xs) ->
  select_rows m2 (select_rows m1 t) = select_rows m t.
Proof.
  intros H. unfold select_rows. cbn [index columns]. rewrite H, map_map.
  f_equal. apply map_ext. intros [n s]. cbn [fst snd]. rewrite H. reflexivity.
Qed.

Lemma select_rows_no_row (m : list bool) (t : DataFrame) :
  lengths_ok t = true -> nrows t = 0%nat -> select_rows m t = t.
Proof.
  intros Hl Hn. destruct t as [idx cols]. unfold nrows in Hn. cbn in Hn.
  apply length_zero_iff_nil in Hn. subst idx.
  unfold select_rows. cbn [index columns]. rewrite keep_nil. f_equal.
  unfold lengths_ok, nrows in Hl. cbn in Hl. rewrite forallb_forall in Hl.
  rewrite <- (map_id cols) at 2. apply map_ext_in. intros [n s] Hin.
  apply Hl in Hin. unfold col_ok in Hin. cbn in Hin.
  apply Nat.eqb_eq, length_zero_iff_nil in Hin. subst s.
  cbn [fst snd]. rewrite keep_nil. reflexivity.
Qed.

Lemma filter_countries_names (sel : list cell) (t f : DataFrame) :
  filter_countries sel t = Some f -> names f = names t.
Proof.
  unfold filter_countries. destruct sel as [|c sel]; [intros [= <-]; reflexivity|].
  destruct (get t "country") as [s|]; [|discriminate].
  cbn [bind]. intros [= <-]. apply names_select_rows.
Qed.

Lemma filter_years_names (yrs : option (Z * Z)) (t f : DataFrame) :
  filter_years yrs t = Some f -> names f = names t.
Proof.
  unfold filter_years. destruct yrs as [[lo hi]|]; [|intros [= <-]; reflexivity].
  destruct (has t "year"); [|intros [= <-]; reflexivity].
  destruct (floats t "year") as [ys|]; [|discriminate].
  cbn [bind]. intros [= <-]. apply names_select_rows.
Qed.

Lemma filter_view_names (sel : list cell) (yrs : option (Z * Z))
  (t f : DataFrame) :
  filter_view sel yrs t = Some f -> names f = names t.
Proof.
  unfold filter_view. destruct (negb (empty t)); [|intros [= <-]; reflexivity].
  destruct (filter_countries sel t) as [f1|] eqn:E1; [|discriminate].
  cbn [bind]. intros E2.
  rewrite (filter_years_names _ _ _ E2). apply (filter_countries_names _ _ _ E1).
Qed.

(** X14.  The filter on a table with a column [country] and a float column
    [year], with a selection of countries and a range of years: the two
    selections of lines 149 and 151, one after the other, keep the rows that
    pass both tests and no other, in the order they had, with their row
    labels and cells; the columns are the ones of the table. *)
Theorem filter_view_is_one_selection (sel : list cell) (lo hi : Z)
  (t : DataFrame) (cs : list cell) (ys : list num) :
  lengths_ok t = true ->
  get t "country" = Some cs -> floats t "year" = Some ys ->
  filter_view sel (Some (lo, hi)) t
  = Some (select_rows (map2 (row_kept sel lo hi) cs ys) t).
Proof.
  intros Hl Hc Hy.
  pose proof (get_length _ _ _ Hl Hc) as Lc.
  pose proof (floats_length _ _ _ Hl Hy) as Ly.
  assert (Hh : has t "year" = true).
  { rewrite has_get, (floats_get _ _ _ Hy). reflexivity. }
  unfold filter_view. destruct (empty t) eqn:He; cbn [negb].
  - f_equal. symmetry. apply select_rows_no_row; [exact Hl|].
    unfold empty in He. apply orb_prop in He as [He|He].
    + apply Nat.eqb_eq, He.
    + apply Nat.eqb_eq, length_zero_iff_nil in He.
      unfold get in Hc. rewrite He in Hc. discriminate.
  - unfold filter_countries. destruct sel as [|c0 sel].
    + cbn [bind]. unfold filter_years. rewrite Hh, Hy. cbn [bind].
      do 2 f_equal. unfold row_kept, selected. cbn [andb].
      symmetry. apply map2_const_l. lia.
    + rewrite Hc. cbn [bind]. unfold filter_years.
      set (m1 := map (isin (c0 :: sel)) cs).
      assert (Hh1 : has (select_rows m1 t) "year" = true).
      { unfold has. rewrite names_select_rows. exact Hh. }
      rewrite Hh1, (floats_select_rows m1 t "year" ys Hy). cbn [bind].
      f_equal. apply select_rows_twice. intros X xs. unfold m1.
      apply (keep_keep (isin (c0 :: sel)) (in_range lo hi) cs ys xs).
Qed.

Lemma filter_view_is_one_selection_witness :
  lengths_ok four_rows = true /\
  get four_rows "country"
  = Some [Str "B"; Str "A"; Str "A"; Str "B"] /\
  floats four_rows "year"
  = Some [of_Z 2001; of_Z 2001; of_Z 2000; of_Z 2000] /\
  filter_view [Str "A"] (Some (2001, 2001)%Z) four_rows
  = Some (select_rows [false; true; false; false] four_rows).
Proof.
  split; [reflexivity|]. split; [reflexivity|]. split; [reflexivity|].
  exact (filter_view_is_one_selection [Str "A"] 2001 2001 four_rows
           [Str "B"; Str "A"; Str "A"; Str "B"]
           [of_Z 2001; of_Z 2001; of_Z 2000; of_Z 2000]
           eq_refl eq_refl eq_refl).
Defined.

(** X15.  A select box always has an option, and a chart that is drawn has
    its y column: an option other than the placeholder is one of the names
    the code lists and a column of the table, and the filter keeps the
    columns. *)
Theorem chart_column_exists (opts : list string) (sel : list cell)
  (yrs : option (Z * Z)) (t f : DataFrame) (c : string) :
  filter_view sel yrs t = Some f ->
  In c (offered opts t) -> chart_drawn f c = true ->
  offered opts t <> [] /\ In c opts /\ has f c = true.
Proof.
  intros Hf Hin Hd.
  split.
  { unfold offered. destruct (available opts t); discriminate. }
  unfold chart_drawn in Hd. apply negb_true_iff, orb_false_elim in Hd as [_ Hn].
  assert (Ha : In c (available opts t)).
  { unfold offered in Hin. destruct (available opts t) as [|a l].
    - destruct Hin as [<-|[]]. rewrite String.eqb_refl in Hn. discriminate.
    - exact Hin. }
  unfold available in Ha. apply filter_In in Ha as [Ho Hh].
  split; [exact Ho|].
  unfold has in *. rewrite (filter_view_names _ _ _ _ Hf). exact Hh.
Qed.

Lemma chart_column_exists_witness :
  filter_view [Str "A"] None one_row = Some one_row /\
  In "co2_pct" (offered co2_options one_row) /\
  chart_drawn one_row "co2_pct" = true /\
  offered co2_options one_row <> [] /\ In "co2_pct" co2_options /\
  has one_row "co2_pct" = true.
Proof.
  split; [reflexivity|]. split; [left; reflexivity|]. split; [reflexivity|].
  apply (chart_column_exists co2_options [Str "A"] None one_row one_row
           "co2_pct"); [reflexivity|left; reflexivity|reflexivity].
Defined.

(** ** The countries offered by the multi-select (lines 121-125) *)

Section Ordered.
Context {A : Type} (le : A -> A -> bool).
Hypothesis le_total : forall a b, le a b = true \/ le b a = true.
Hypothesis le_trans :
  forall a b c, le a b = true -> le b c = true -> le a c = true.


End Ordered.













(** ** The bounds of the year slider (lines 128-131) *)

Lemma float_leb_refl (a : num) : is_nan a = false -> Float.leb a a = true.
Proof.
  destruct a as [q| | |]; simpl; try discriminate; auto.
  intros _. apply Qle_bool_iff, Qle_refl.
Qed.

Lemma forallb_is_nan (ys : list num) (y : num) :
  forallb is_nan ys = true -> In y ys -> is_nan y = true.
Proof. rewrite forallb_forall. auto. Qed.

Lemma nanmin_spec (ys : list num) :
  (nanmin ys = NaN /\ forallb is_nan ys = true) \/
  (is_nan (nanmin ys) = false /\ In (nanmin ys) ys /\
   forall y, In y ys -> is_nan y = false -> Float.leb (nanmin ys) y = true).
Proof.
  induction ys as [|a r IH]; [left; split; reflexivity|].
  change (nanmin (a :: r)) with (fmin a (nanmin r)). unfold fmin.
  cbn [forallb]. destruct (is_nan a) eqn:Na.
  - destruct IH as [[E F]|(N & I & L)].
    + left. auto.
    + right. split; [exact N|]. split; [right; exact I|].
      intros y [<-|Hy] Hn; [congruence|]. apply L; assumption.
  - right. destruct IH as [[E F]|(N & I & L)].
    + rewrite E. cbn [is_nan]. split; [exact Na|]. split; [left; reflexivity|].
      intros y [<-|Hy] Hn; [apply float_leb_refl, Na|].
      rewrite (forallb_is_nan _ _ F Hy) in Hn. discriminate.
    + rewrite N. destruct (Float.leb a (nanmin r)) eqn:E.
      * split; [exact Na|]. split; [left; reflexivity|].
        intros y [<-|Hy] Hn; [apply float_leb_refl, Na|].
        apply (float_leb_trans _ _ _ E), L; assumption.
      * split; [exact N|]. split; [right; exact I|].
        intros y [<-|Hy] Hn; [|apply L; assumption].
        destruct (float_leb_total a (nanmin r) Na N) as [H|H];
          [congruence|exact H].
Qed.

Lemma nanmax_spec (ys : list num) :
  (nanmax ys = NaN /\ forallb is_nan ys = true) \/
  (is_nan (nanmax ys) = false /\ In (nanmax ys) ys /\
   forall y, In y ys -> is_nan y = false -> Float.leb y (nanmax ys) = true).
Proof.
  induction ys as [|a r IH]; [left; split; reflexivity|].
  change (nanmax (a :: r)) with (fmax a (nanmax r)). unfold fmax.
  cbn [forallb]. destruct (is_nan a) eqn:Na.
  - destruct IH as [[E F]|(N & I & L)].
    + left. auto.
    + right. split; [exact N|]. split; [right; exact I|].
      intros y [<-|Hy] Hn; [congruence|]. apply L; assumption.
  - right. destruct IH as [[E F]|(N & I & L)].
    + rewrite E. cbn [is_nan]. split; [exact Na|]. split; [left; reflexivity|].
      intros y [<-|Hy] Hn; [apply float_leb_refl, Na|].
      rewrite (forallb_is_nan _ _ F Hy) in Hn. discriminate.
    + rewrite N. destruct (Float.leb a (nanmax r)) eqn:E.
      * split; [exact N|]. split; [right; exact I|].
        intros y [<-|Hy] Hn; [exact E|apply L; assumption].
      * split; [exact Na|]. split; [left; reflexivity|].
        intros y [<-|Hy] Hn; [apply float_leb_refl, Na|].
        apply (float_leb_trans _ (nanmax r)); [apply L; assumption|].
        destruct (float_leb_total a (nanmax r) Na N) as [H|H];
          [congruence|exact H].
Qed.

Lemma year_bounds_inv (ys : list num) (lo hi : Z) :
  year_bounds ys = Some (lo, hi) ->
  exists p q, nanmin ys = Fin p /\ nanmax ys = Fin q /\
              lo = Z.quot (Qnum p) (Zpos (Qden p)) /\
              hi = Z.quot (Qnum q) (Zpos (Qden q)).
Proof.
  unfold year_bounds, to_int.
  destruct (nanmin ys) as [p| | |]; try discriminate.
  destruct (nanmax ys) as [q| | |]; try discriminate.
  cbn [bind]. intros [= <- <-]. exists p, q. auto.
Qed.

Lemma quot_le_int (n z : Z) (d : positive) :
  (n <= z * Zpos d)%Z -> (Z.quot n (Zpos d) <= z)%Z.
Proof.
  intros H.
  pose proof (Z.quot_rem' n (Zpos d)) as E.
  pose proof (Z.rem_bound_abs n (Zpos d) ltac:(lia)) as B.
  assert (R : (- Zpos d < Z.rem n (Zpos d))%Z) by lia.
  nia.
Qed.

Lemma int_le_quot (n z : Z) (d : positive) :
  (z * Zpos d <= n)%Z -> (z <= Z.quot n (Zpos d))%Z.
Proof.
  intros H.
  pose proof (Z.quot_rem' n (Zpos d)) as E.
  pose proof (Z.rem_bound_abs n (Zpos d) ltac:(lia)) as B.
  assert (R : (Z.rem n (Zpos d) < Zpos d)%Z) by lia.
  nia.
Qed.

(** X17.  The bounds of the year slider, [int] of the smallest and of the
    largest value of a float column [year]: a year of the column that is a
    whole number lies between them, so the range selected when the page opens
    keeps its rows. *)
Theorem year_bounds_cover (ys : list num) (lo hi z : Z) :
  year_bounds ys = Some (lo, hi) -> In (of_Z z) ys ->
  (lo <= z <= hi)%Z /\ in_range lo hi (of_Z z) = true.
Proof.
  intros H Hin.
  apply year_bounds_inv in H as (p & q & Ep & Eq & -> & ->).
  assert (B : (Z.quot (Qnum p) (Zpos (Qden p)) <= z
               <= Z.quot (Qnum q) (Zpos (Qden q)))%Z).
  { split.
    - destruct (nanmin_spec ys) as [[E _]|(_ & _ & L)]; [congruence|].
      specialize (L _ Hin eq_refl). rewrite Ep in L. cbn in L.
      apply Qle_bool_iff in L. unfold Qle in L. cbn in L.
      apply quot_le_int. lia.
    - destruct (nanmax_spec ys) as [[E _]|(_ & _ & L)]; [congruence|].
      specialize (L _ Hin eq_refl). rewrite Eq in L. cbn in L.
      apply Qle_bool_iff in L. unfold Qle in L. cbn in L.
      apply int_le_quot. lia. }
  split; [exact B|].
  unfold in_range, of_Z. cbn [Float.leb].
  apply andb_true_intro; split; apply Qle_bool_iff; rewrite <- Zle_Qle; lia.
Qed.

Lemma year_bounds_cover_witness :
  year_bounds [of_Z 2001; NaN; of_Z 2000; Fin (4001 # 2)]
  = Some (2000, 2001)%Z /\
  In (of_Z 2001) [of_Z 2001; NaN; of_Z 2000; Fin (4001 # 2)] /\
  (2000 <= 2001 <= 2001)%Z /\ in_range 2000 2001 (of_Z 2001) = true.
Proof.
  split; [reflexivity|]. split; [left; reflexivity|].
  apply (year_bounds_cover [of_Z 2001; NaN; of_Z 2000; Fin (4001 # 2)]
           2000 2001 2001); [reflexivity|left; reflexivity].
Defined.

(** X18.  Lines 129 and 130 raise ([int] of NaN or of an infinity) exactly
    when the float column [year] holds no value that is not NaN, or holds an
    infinity. *)
Theorem year_bounds_fails (ys : list num) :
  year_bounds ys = None <->
  forallb is_nan ys = true \/ In PInf ys \/ In NInf ys.
Proof.
  split.
  - intros H. unfold year_bounds, to_int in H.
    destruct (nanmin_spec ys) as [[E F]|(N & I & _)]; [auto|].
    destruct (nanmax_spec ys) as [[E' F']|(N' & I' & _)]; [auto|].
    destruct (nanmin ys) as [p| | |]; try discriminate; auto.
    destruct (nanmax ys) as [q| | |]; try discriminate; auto.
  - intros [F|[I|I]]; unfold year_bounds, to_int.
    + destruct (nanmin_spec ys) as [[E _]|(N & I & _)].
      * rewrite E. reflexivity.
      * rewrite (forallb_is_nan _ _ F I) in N. discriminate.
    + destruct (nanmax_spec ys) as [[E _]|(N & _ & L)].
      * rewrite E. destruct (nanmin ys); reflexivity.
      * specialize (L _ I eq_refl).
        destruct (nanmax ys) as [q| | |]; try discriminate;
          destruct (nanmin ys); reflexivity.
    + destruct (nanmin_spec ys) as [[E _]|(N & _ & L)].
      * rewrite E. reflexivity.
      * specialize (L _ I eq_refl).
        destruct (nanmin ys) as [q| | |]; try discriminate; reflexivity.
Qed.
